(** * koa-convert: adapters, composer entry point and mount combinator

    A shallow embedding of [index.js].

    Modelling conventions.

    - A promise is represented by the way it settles ([outcome]); calling a
      function that returns a promise and waiting for that promise are one
      step of the model.  This is the sequential reading of a middleware
      chain: every step waits for the continuation it calls.  A step that
      starts its continuation and does not wait for it is outside the model.
    - The body of a middleware is a tree of effects ([prog]): reads and
      writes of the shared context object, and calls of the continuation
      the middleware was handed.  Calling a middleware with a given
      continuation is substitution of that continuation at the calls
      ([invoke]); a closure that captures a mutable local (the [called]
      flag of [convert.back]) is a handler with a state of its own.
    - A generator function is represented by what its body does when it is
      driven by [co]: the continuation call of its body is [yield next] (or
      [yield* next]), which hands back the value the generator is resumed
      with or the error thrown at the suspension point.
    - [koa-compose] and the part of [co] that deals with yielded values
      other than promises belong to other packages; they are parameters. *)

From Stdlib Require Import String Ascii List ZArith Bool Lia DecimalString.
Import ListNotations.
Local Open Scope string_scope.

(** ** Values *)

(** First-order JavaScript values: what a promise is settled with, what is
    thrown, what a property such as [_name] may hold. *)
Inductive value : Type :=
| VUndefined
| VNull
| VBoolean (b : bool)
| VNumber (n : Z)
| VString (s : string)
| VError (ctor : string) (message : string)   (* new ctor(message) *)
| VGeneratorObject.                           (* an opaque generator object *)

(** Truthiness, as used by [||] and [!]. *)
Definition truthy (v : value) : bool :=
  match v with
  | VUndefined | VNull => false
  | VBoolean b => b
  | VNumber n => negb (n =? 0)%Z
  | VString s => negb (s =? "")
  | VError _ _ | VGeneratorObject => true
  end.

(** [a || b] *)
Definition js_or (a b : value) : value := if truthy a then a else b.

Definition TypeError (message : string) : value := VError "TypeError" message.
Definition Error (message : string) : value := VError "Error" message.
Definition AssertionError (message : string) : value :=
  VError "AssertionError" message.

(** How a promise settles. *)
Inductive outcome : Type :=
| Fulfilled (v : value)
| Rejected (e : value).

(** How a call of a function ends. *)
Inductive completion : Type :=
| Returned (v : value)            (* returned a value that is not a promise *)
| ReturnedPromise (o : outcome)   (* returned a promise, which settles as [o] *)
| Thrown (e : value).             (* threw synchronously *)

(** [Promise.resolve(x)]: a promise is returned as it is, any other value
    becomes a fulfilled promise. *)
Definition Promise_resolve (v : completion) : completion :=
  match v with
  | Returned x => ReturnedPromise (Fulfilled x)
  | other => other
  end.

(** ** The context object *)

(** The request context shared by one chain.  Only [path] and [mountPath]
    are touched by this package; [body] stands for everything else the
    middlewares of a chain read and write. *)
Record Context : Type := mkContext {
  path : string;
  mountPath : option string;      (* [None]: the property is not set *)
  body : list value
}.

Definition set_path (p : string) (ctx : Context) : Context :=
  mkContext p (mountPath ctx) (body ctx).

Definition set_mountPath (p : string) (ctx : Context) : Context :=
  mkContext (path ctx) (Some p) (body ctx).

Definition set_body (b : list value) (ctx : Context) : Context :=
  mkContext (path ctx) (mountPath ctx) b.

(** ** Bodies of functions *)

(** A function body with a continuation parameter.  [N] is what a call of
    the continuation hands back, [R] how the body ends. *)
Inductive prog (N R : Type) : Type :=
| Ret (r : R)
| Read (k : Context -> prog N R)
| Update (f : Context -> Context) (k : prog N R)
| Next (k : N -> prog N R).

Arguments Ret {N R} r.
Arguments Read {N R} k.
Arguments Update {N R} f k.
Arguments Next {N R} k.

(** Sequencing: run [p], then [f] on the way [p] ended. *)
Fixpoint bind {N A B : Type} (p : prog N A) (f : A -> prog N B) : prog N B :=
  match p with
  | Ret r => f r
  | Read k => Read (fun ctx => bind (k ctx) f)
  | Update g k => Update g (bind k f)
  | Next k => Next (fun n => bind (k n) f)
  end.

(** A closure passed as continuation: its body, and the captured mutable
    locals [L] it may change when it is called. *)
Definition closure (L N M : Type) : Type := L -> prog N M * L.

(** A closure that captures no mutable local. *)
Definition stateless {N M : Type} (p : prog N M) : closure unit N M :=
  fun l => (p, l).

(** [invoke f k l]: the body [f] run with the closure [k] as its
    continuation; [l] is the current value of the locals [k] captured. *)
Fixpoint invoke {L N M R : Type} (f : prog M R) (k : closure L N M) (l : L)
  : prog N R :=
  match f with
  | Ret r => Ret r
  | Read g => Read (fun ctx => invoke (g ctx) k l)
  | Update u g => Update u (invoke g k l)
  | Next g => let (p, l') := k l in bind p (fun m => invoke (g m) k l')
  end.

(** Execution on a context, the continuation given by what it does. *)
Fixpoint run {N R : Type} (p : prog N R) (next : Context -> N * Context)
  (ctx : Context) : R * Context :=
  match p with
  | Ret r => (r, ctx)
  | Read k => run (k ctx) next ctx
  | Update f k => run k next (f ctx)
  | Next k => let (n, ctx') := next ctx in run (k n) next ctx'
  end.

(** The number of times the continuation is called in that execution. *)
Fixpoint calls {N R : Type} (p : prog N R) (next : Context -> N * Context)
  (ctx : Context) : nat :=
  match p with
  | Ret _ => 0
  | Read k => calls (k ctx) next ctx
  | Update f k => calls k next (f ctx)
  | Next k => let (n, ctx') := next ctx in S (calls (k n) next ctx')
  end.

(** Execution of the body [f] with the closure [k] as its continuation,
    the closure run at every call: how [f] ends, the context it leaves,
    and what the calls of the continuation handed back, in their order. *)
Fixpoint run_with {L N M R : Type} (f : prog M R) (k : closure L N M) (l : L)
  (next : Context -> N * Context) (ctx : Context) : R * Context * list M :=
  match f with
  | Ret r => (r, ctx, [])
  | Read g => run_with (g ctx) k l next ctx
  | Update u g => run_with g k l next (u ctx)
  | Next g =>
      let (p, l') := k l in
      let (m, ctx') := run p next ctx in
      let (end_, ms) := run_with (g m) k l' next ctx' in
      (end_, m :: ms)
  end.

Definition handed {L N M R : Type} (f : prog M R) (k : closure L N M) (l : L)
  (next : Context -> N * Context) (ctx : Context) : list M :=
  snd (run_with f k l next ctx).

(** ** Functions and other values passed to the package *)

(** The code of a function object. *)
Inductive JsCode : Type :=
| PlainCode (p : prog completion completion)   (* function (ctx, next) { ... } *)
| AsyncCode (p : prog completion completion)   (* async (ctx, next) => { ... } *)
| GeneratorCode (g : prog outcome outcome).    (* function * (next) { ... }, this = ctx *)

Record JsFunction : Type := mkFunction {
  name : string;              (* fn.name, the declared name *)
  _name : option value;       (* fn._name; [None]: the property is not set *)
  code : JsCode
}.

(** [fn.constructor.name] *)
Definition constructor_name (fn : JsFunction) : string :=
  match code fn with
  | PlainCode _ => "Function"
  | AsyncCode _ => "AsyncFunction"
  | GeneratorCode _ => "GeneratorFunction"
  end.

(** Reading a property that may be absent. *)
Definition property (p : option value) : value :=
  match p with
  | Some v => v
  | None => VUndefined
  end.

#[local] Unset Elimination Schemes.
Inductive jsval : Type :=
| JValue (v : value)
| JArray (items : list jsval)
| JApplication (middleware : list jsval)   (* an object with a [middleware] array *)
| JFunction (fn : JsFunction).
#[local] Set Elimination Schemes.

Definition typeof (x : jsval) : string :=
  match x with
  | JValue VUndefined => "undefined"
  | JValue VNull => "object"
  | JValue (VBoolean _) => "boolean"
  | JValue (VNumber _) => "number"
  | JValue (VString _) => "string"
  | JValue (VError _ _) => "object"
  | JValue VGeneratorObject => "object"
  | JArray _ => "object"
  | JApplication _ => "object"
  | JFunction _ => "function"
  end.

(** [Array.isArray(x)] *)
Definition isArray (x : jsval) : bool :=
  match x with
  | JArray _ => true
  | _ => false
  end.

(** The elements of an array. *)
Definition elements (x : jsval) : list jsval :=
  match x with
  | JArray items => items
  | _ => []
  end.

(** How a call of one of the package's functions ends. *)
Inductive jsresult : Type :=
| JsReturn (v : jsval)
| JsThrow (e : value).

(** An async function always returns a promise. *)
Definition async_result (c : completion) : completion :=
  match c with
  | Returned v => ReturnedPromise (Fulfilled v)
  | ReturnedPromise o => ReturnedPromise o
  | Thrown e => ReturnedPromise (Rejected e)
  end.

(** [fn(ctx, next)]: the body of [fn], its continuation calls still open.
    Calling a generator function runs nothing and returns a generator
    object. *)
Definition call_function (fn : JsFunction) : prog completion completion :=
  match code fn with
  | PlainCode p => p
  | AsyncCode p => bind p (fun c => Ret (async_result c))
  | GeneratorCode _ => Ret (Returned VGeneratorObject)
  end.

(** [x(ctx, next)] for any value [x]. *)
Definition call_value (callee : string) (x : jsval) : prog completion completion :=
  match x with
  | JFunction fn => call_function fn
  | _ => Ret (Thrown (TypeError (callee ++ " is not a function")))
  end.

(** [fn.call(ctx, next)] for a generator function [fn]: the generator
    object, as [co] drives it.  Only used on generator functions. *)
Definition generator_body (fn : JsFunction) : prog outcome outcome :=
  match code fn with
  | GeneratorCode g => g
  | _ => Ret (Fulfilled VUndefined)
  end.

(** The error of [x.then] when [x] is not a promise. *)
Definition no_then (callee : string) (x : value) : value :=
  match x with
  | VUndefined => TypeError "Cannot read properties of undefined (reading 'then')"
  | VNull => TypeError "Cannot read properties of null (reading 'then')"
  | _ => TypeError (callee ++ ".then is not a function")
  end.

(** [x.then(() => { onFulfilled })], where [x] is the completion of the
    receiver expression, written [callee] in the source. *)
Definition then_ {N : Type} (callee : string) (x : completion)
  (onFulfilled : prog N completion) : prog N completion :=
  match x with
  | ReturnedPromise (Fulfilled _) =>
      bind onFulfilled (fun r => Ret (async_result r))
  | ReturnedPromise (Rejected e) => Ret (ReturnedPromise (Rejected e))
  | Returned v => Ret (Thrown (no_then callee v))
  | Thrown e => Ret (Thrown e)
  end.

(** ** Strings *)

(** [s.indexOf(pattern)] *)
Definition indexOf (s pattern : string) : Z :=
  match index 0 pattern s with
  | Some n => Z.of_nat n
  | None => (-1)%Z
  end.

(** [s.replace(pattern, replacement)] for a string [pattern]: the first
    occurrence is replaced.  The replacement is taken as it is (the source
    only replaces by the empty string). *)
Definition replace (s pattern replacement : string) : string :=
  match index 0 pattern s with
  | Some n =>
      substring 0 n s ++ replacement
        ++ substring (n + String.length pattern)
             (String.length s - (n + String.length pattern)) s
  | None => s
  end.

(** [s.slice(-1)] *)
Definition slice_last (s : string) : string :=
  substring (String.length s - 1) 1 s.

(** [s[0] === c] *)
Definition first_is (c : ascii) (s : string) : bool :=
  match get 0 s with
  | Some a => Ascii.eqb a c
  | None => false
  end.

Definition slash : ascii := "/"%char.
Definition dquote : string := String (ascii_of_nat 34) EmptyString.

(** ** mount: matching *)

Definition trailingSlash (prefix : string) : bool := slice_last prefix =? "/".

(** [match(path)] inside [mount]; [None] is [false]. *)
Definition match_ (prefix path : string) : option string :=
  if negb (indexOf path prefix =? 0)%Z then None
  else
    let newPath :=
      let r := replace path prefix "" in if r =? "" then "/" else r in
    if trailingSlash prefix then Some newPath
    else if negb (first_is slash newPath) then None
    else Some newPath.

(** [!newPath] *)
Definition not_ (newPath : option string) : bool :=
  match newPath with
  | None => true
  | Some s => s =? ""
  end.

(** ** mount: the function it returns *)

(** The continuation handed to the mounted target:
    [() => { ctx.path = prev; return upstream().then(() => { ctx.path = newPath }) }] *)
Definition mount_next (prev newPath : string) : prog completion completion :=
  Update (set_path prev)
    (Next (fun r =>
       then_ "upstream(...)" r
         (Update (set_path newPath) (Ret (Returned VUndefined))))).

(** [function (ctx, upstream) { ... }] *)
Definition mounted (prefix : string) (downstream : jsval)
  : prog completion completion :=
  Read (fun ctx =>
    let prev := path ctx in
    let newPath := match_ prefix prev in
    if not_ newPath then Next (fun r => Ret r)
    else
      let newPath := match newPath with Some s => s | None => "" end in
      Update (set_mountPath prefix)
        (Update (set_path newPath)
           (bind
              (invoke (call_value "downstream" downstream)
                 (stateless (mount_next prev newPath)) tt)
              (fun r =>
                 then_ "Promise.resolve(...)" (Promise_resolve r)
                   (Update (set_path prev) (Ret (Returned VUndefined))))))).

(** ** convert.back *)

(** The continuation handed to the wrapped function; [called] is the local
    of the generator.  [co.call(ctx, next)] drives the downstream generator
    [next] and returns the promise of its result. *)
Definition guarded_next : closure bool outcome completion :=
  fun called =>
    if called
    then (Ret (ReturnedPromise (Rejected (Error "next() called multiple times"))),
          called)
    else (Next (fun o => Ret (ReturnedPromise o)), true).

(** [yield Promise.resolve(r)] as the last statement of a generator, [r]
    being how the call of [mw] ended: the generator throws what [mw] threw
    or what the promise is rejected with, and returns [undefined]
    otherwise. *)
Definition yield_resolved (r : completion) : outcome :=
  match Promise_resolve r with
  | Returned _ | ReturnedPromise (Fulfilled _) => Fulfilled VUndefined
  | ReturnedPromise (Rejected e) => Rejected e
  | Thrown e => Rejected e
  end.

(** [function * (next) { let ctx = this; let called = false; yield Promise.resolve(mw(ctx, ...)) }] *)
Definition back_body (mw : JsFunction) : prog outcome outcome :=
  bind (invoke (call_function mw) guarded_next false)
    (fun r => Ret (yield_resolved r)).

Definition convert_back (mw : jsval) : jsresult :=
  if negb (typeof mw =? "function")
  then JsThrow (TypeError "middleware must be a function")
  else
    match mw with
    | JFunction fn =>
        if constructor_name fn =? "GeneratorFunction" then JsReturn mw
        else
          JsReturn (JFunction
            (mkFunction "converted"
               (Some (js_or (property (_name fn)) (VString (name fn))))
               (GeneratorCode (back_body fn))))
    | _ => JsThrow (TypeError "middleware must be a function")
    end.

(** ** convert, convert.compose and mount *)

Section Externals.

(** [koa-compose]: from an array of functions to one function. *)
Variable compose : list jsval -> jsresult.

(** What [co] resumes a generator with when the generator yields a value
    that is not a promise. *)
Variable co_yield : value -> outcome.

(** [function * createGenerator (next) { return yield next() }], driven
    by [co]. *)
Definition createGenerator : prog completion outcome :=
  Next (fun r =>
    match r with
    | ReturnedPromise o => Ret o
    | Returned v => Ret (co_yield v)
    | Thrown e => Ret (Rejected e)
    end).

(** [yield next] in a converted generator function, [next] being the
    object made by [createGenerator(next)]: it runs once; yielded again,
    a finished generator gives [undefined]. *)
Definition yield_next : closure bool completion outcome :=
  fun started =>
    if started then (Ret (Fulfilled VUndefined), started)
    else (createGenerator, true).

(** [function (ctx, next) { return co.call(ctx, mw.call(ctx, createGenerator(next))) }] *)
Definition converted (mw : JsFunction) : prog completion completion :=
  bind (invoke (generator_body mw) yield_next false)
    (fun o => Ret (ReturnedPromise o)).

Definition convert (mw : jsval) : jsresult :=
  if negb (typeof mw =? "function")
  then JsThrow (TypeError "middleware must be a function")
  else
    match mw with
    | JFunction fn =>
        if negb (constructor_name fn =? "GeneratorFunction") then JsReturn mw
        else
          JsReturn (JFunction
            (mkFunction "converted"
               (Some (js_or (property (_name fn)) (VString (name fn))))
               (PlainCode (converted fn))))
    | _ => JsThrow (TypeError "middleware must be a function")
    end.

(** [arr.map(convert)]; the first exception ends it. *)
Fixpoint map_convert (arr : list jsval) : value + list jsval :=
  match arr with
  | [] => inr []
  | mw :: rest =>
      match convert mw with
      | JsThrow e => inl e
      | JsReturn m =>
          match map_convert rest with
          | inl e => inl e
          | inr ms => inr (m :: ms)
          end
      end
  end.

(** [convert.compose], called with the arguments [args]; [arr] is the
    first of them. *)
Definition convert_compose (args : list jsval) : jsresult :=
  let arr := nth 0 args (JValue VUndefined) in
  let arr := if negb (isArray arr) then args else elements arr in
  match map_convert arr with
  | inl e => JsThrow e
  | inr ms => compose ms
  end.

(** [var downstream = app.middleware ? compose(app.middleware) : app] *)
Definition normalize (app : jsval) : jsresult :=
  match app with
  | JValue VUndefined =>
      JsThrow (TypeError "Cannot read properties of undefined (reading 'middleware')")
  | JValue VNull =>
      JsThrow (TypeError "Cannot read properties of null (reading 'middleware')")
  | JApplication middleware => compose middleware
  | _ => JsReturn app
  end.

Definition mount (prefix app : jsval) : jsresult :=
  let app := if negb (typeof prefix =? "string") then prefix else app in
  let prefix := match prefix with JValue (VString s) => s | _ => "/" end in
  if negb (first_is slash prefix)
  then JsThrow (AssertionError
                  ("mount path must begin with " ++ dquote ++ "/" ++ dquote))
  else
    match normalize app with
    | JsThrow e => JsThrow e
    | JsReturn downstream =>
        if prefix =? "/" then JsReturn downstream
        else JsReturn (JFunction
                         (mkFunction "" None (PlainCode (mounted prefix downstream))))
    end.

End Externals.

(** ** Instances of the parameters *)

(** [String(v)] *)
Definition js_String (v : value) : string :=
  match v with
  | VUndefined => "undefined"
  | VNull => "null"
  | VBoolean true => "true"
  | VBoolean false => "false"
  | VNumber n => NilZero.string_of_int (Z.to_int n)
  | VString s => s
  | VError ctor message => if message =? "" then ctor else ctor ++ ": " ++ message
  | VGeneratorObject => "[object Generator]"
  end.

(** [co] at a yielded value that is not a promise: a TypeError is thrown
    into the generator (an opaque generator object is taken as one that
    has finished). *)
Definition co_yield_value (v : value) : outcome :=
  match v with
  | VGeneratorObject => Fulfilled VUndefined
  | _ =>
      Rejected (TypeError
        ("You may only yield a function, promise, generator, array, or object, "
           ++ "but the following object was passed: "
           ++ dquote ++ js_String v ++ dquote))
  end.

(** A continuation that may be called once: [koa-compose] rejects the
    second call of the [next] it hands to a step. *)
Definition once (p : prog completion completion)
  : closure bool completion completion :=
  fun called =>
    if called
    then (Ret (ReturnedPromise (Rejected (Error "next() called multiple times"))),
          called)
    else (p, true).

(** [try { return Promise.resolve(fn(...)) } catch (err) { return Promise.reject(err) }] *)
Definition settle_call (r : completion) : completion :=
  match r with
  | Thrown e => ReturnedPromise (Rejected e)
  | _ => Promise_resolve r
  end.

(** The chain of [koa-compose]: each step is called with the rest of the
    chain as its continuation, the last continuation is the [next] of the
    composed function. *)
Fixpoint dispatch (middleware : list jsval) : prog completion completion :=
  match middleware with
  | [] => Next (fun r => Ret (settle_call r))
  | fn :: rest =>
      bind (invoke (call_value "fn" fn) (once (dispatch rest)) false)
        (fun r => Ret (settle_call r))
  end.

Definition koa_compose (middleware : list jsval) : jsresult :=
  if forallb (fun fn => typeof fn =? "function") middleware
  then JsReturn (JFunction (mkFunction "" None (PlainCode (dispatch middleware))))
  else JsThrow (TypeError "Middleware must be composed of functions!").

(** The continuation of a chain that is called without one. *)
Definition noop (ctx : Context) : completion * Context :=
  (ReturnedPromise (Fulfilled VUndefined), ctx).

(** ** Vocabulary of the statements *)

Definition is_callable (x : jsval) : bool :=
  match x with
  | JFunction _ => true
  | _ => false
  end.

(** A function written with the generator syntax. *)
Definition is_generator_function (fn : JsFunction) : bool :=
  match code fn with
  | GeneratorCode _ => true
  | _ => false
  end.

(** A middleware in the modern style: a function that is not a generator
    function. *)
Definition is_modern (x : jsval) : Prop :=
  exists fn, x = JFunction fn /\ is_generator_function fn = false.

(** [fn(ctx, next)] executed on [ctx], [next] given by what it does. *)
Definition call (x : jsval) (next : Context -> completion * Context)
  (ctx : Context) : completion * Context :=
  run (call_value "fn" x) next ctx.

(** What the continuation handed to a mounted target does, in the words
    of the specification: the path is put back to the one before the
    mount, the upstream continuation is called, and when its promise is
    fulfilled the path is set to the mounted path again; a rejection is
    passed on. *)
Definition restoring_continuation (prev newPath : string)
  (upstream : Context -> completion * Context) (ctx : Context)
  : completion * Context :=
  let (r, ctx') := upstream (set_path prev ctx) in
  match r with
  | ReturnedPromise (Fulfilled _) =>
      (ReturnedPromise (Fulfilled VUndefined), set_path newPath ctx')
  | ReturnedPromise (Rejected e) => (ReturnedPromise (Rejected e), ctx')
  | Returned v => (Thrown (no_then "upstream(...)" v), ctx')
  | Thrown e => (Thrown e, ctx')
  end.

(** The mounted target as the mounted function runs it: on the context
    with the mounted path and the mount prefix, with the continuation of
    the source. *)
Definition target_run (prefix : string) (downstream : jsval)
  (upstream : Context -> completion * Context) (ctx : Context) (newPath : string)
  : completion * Context :=
  run (invoke (call_value "downstream" downstream)
         (stateless (mount_next (path ctx) newPath)) tt)
    upstream (set_path newPath (set_mountPath prefix ctx)).

(** How the mounted function ends, from the way its target ended: a target
    that returned (a promise that is fulfilled, or any other value) gives
    a promise fulfilled with [undefined], after the path is put back; a
    rejection and an exception are passed on. *)
Definition mounted_result (prev : string) (t : completion * Context)
  : completion * Context :=
  let (r, ctx') := t in
  match r with
  | Returned _ | ReturnedPromise (Fulfilled _) =>
      (ReturnedPromise (Fulfilled VUndefined), set_path prev ctx')
  | ReturnedPromise (Rejected e) => (ReturnedPromise (Rejected e), ctx')
  | Thrown e => (Thrown e, ctx')
  end.

(** The [_name] of the function an adapter returned. *)
Definition returned_name (r : jsresult) : option value :=
  match r with
  | JsReturn (JFunction w) => _name w
  | _ => None
  end.

(** The call of the function that [mount] (or an adapter) returned. *)
Definition call_returned (r : jsresult) (next : Context -> completion * Context)
  (ctx : Context) : option (completion * Context) :=
  match r with
  | JsReturn m => Some (call m next ctx)
  | JsThrow _ => None
  end.

(** A modern middleware that calls its continuation twice:
    [before; r1 = next(); between r1; r2 = next(); after r1 r2; return finish r1 r2],
    each step free to read and write the context. *)
Definition calls_twice (before : Context -> Context)
  (between : completion -> Context -> Context)
  (after : completion -> completion -> Context -> Context)
  (finish : completion -> completion -> Context -> completion)
  : prog completion completion :=
  Update before
    (Next (fun r1 =>
       Update (between r1)
         (Next (fun r2 =>
            Update (after r1 r2) (Read (fun c => Ret (finish r1 r2 c))))))).

(** A body that leaves [mountPath] alone, whenever its continuation does. *)
Definition keeps_mountPath {N R : Type} (p : prog N R) : Prop :=
  forall next : Context -> N * Context,
    (forall c, mountPath (snd (next c)) = mountPath c) ->
    forall ctx, mountPath (snd (run p next ctx)) = mountPath ctx.

(** What the first [yield next] of a converted generator function is
    resumed with: [next()] is called and its promise awaited; an exception
    of [next()] is thrown at the suspension point. *)
Definition awaited (co_yield : value -> outcome)
  (next : Context -> completion * Context) (ctx : Context)
  : outcome * Context :=
  let (r, ctx') := next ctx in
  (match r with
   | ReturnedPromise o => o
   | Returned v => co_yield v
   | Thrown e => Rejected e
   end, ctx').

(** [co.call(ctx, next)] for a downstream generator given by what it does:
    the promise of its result. *)
Definition promised (downstream : Context -> outcome * Context) (ctx : Context)
  : completion * Context :=
  let (o, ctx') := downstream ctx in (ReturnedPromise o, ctx').

(** An outcome whose value has been dropped. *)
Definition discard_value (o : outcome) : outcome :=
  match o with
  | Fulfilled _ => Fulfilled VUndefined
  | Rejected e => Rejected e
  end.

(** [match] under the prefix [outer], then [match] under the prefix
    [inner] on the path that is left. *)
Definition match_nested (outer inner path : string) : option string :=
  match match_ outer path with
  | Some rest => match_ inner rest
  | None => None
  end.

(** A value of which [x.middleware] can be read: anything but [undefined]
    and [null]. *)
Definition has_properties (x : jsval) : bool :=
  match x with
  | JValue VUndefined | JValue VNull => false
  | _ => true
  end.

(** The message of the assertion of [mount]. *)
Definition prefix_message : string :=
  "mount path must begin with " ++ dquote ++ "/" ++ dquote.

(** ** Programs used in the examples *)

(** [ctx.body.push(n)] *)
Definition push {N R : Type} (n : Z) (k : prog N R) : prog N R :=
  Update (fun ctx => set_body (body ctx ++ [VNumber n]) ctx) k.

Definition context (p : string) : Context := mkContext p None [].

(** [(ctx, next) => { ctx.body.push(1); return next().then(() => { ctx.body.push(2) }) }] *)
Definition hello : JsFunction :=
  mkFunction "hello" None
    (PlainCode
       (push 1 (Next (fun r =>
          then_ "next(...)" r (push 2 (Ret (Returned VUndefined))))))).

(** [(ctx, next) => Promise.reject(new Error('boom'))] *)
Definition failing : JsFunction :=
  mkFunction "failing" None
    (PlainCode (Ret (ReturnedPromise (Rejected (Error "boom"))))).

(** [(ctx, next) => { throw new Error('boom') }] *)
Definition throwing : JsFunction :=
  mkFunction "throwing" None (PlainCode (Ret (Thrown (Error "boom")))).

(** [(ctx) => { ctx.body.push(204) }], which returns [undefined]. *)
Definition status204 : JsFunction :=
  mkFunction "" None (PlainCode (push 204 (Ret (Returned VUndefined)))).

(** [mount('/foo', mount('/bar', hello))] *)
Definition nested_mount : jsresult :=
  match mount koa_compose (JValue (VString "/bar")) (JFunction hello) with
  | JsReturn inner => mount koa_compose (JValue (VString "/foo")) inner
  | JsThrow e => JsThrow e
  end.

(** [co.wrap(function * (ctx, next) { ctx.body.push(2); yield next(); yield next() })]:
    a rejected promise that is yielded is thrown in the generator, which
    ends the generator and rejects the promise of the wrapped function. *)
Definition after_yield (r : completion) : completion :=
  match r with
  | ReturnedPromise (Fulfilled _) => ReturnedPromise (Fulfilled VUndefined)
  | ReturnedPromise (Rejected e) => ReturnedPromise (Rejected e)
  | Returned v => ReturnedPromise (co_yield_value v)
  | Thrown e => ReturnedPromise (Rejected e)
  end.

Definition next_twice : JsFunction :=
  mkFunction "" None
    (PlainCode
       (calls_twice
          (fun ctx => set_body (body ctx ++ [VNumber 2]) ctx)
          (fun _ ctx => ctx)
          (fun _ _ ctx => ctx)
          (fun r1 r2 _ =>
             match after_yield r1 with
             | ReturnedPromise (Fulfilled _) => after_yield r2
             | other => other
             end))).

(** [function * (next) { this.body.push(a); yield next; this.body.push(b) }] *)
Definition around (a b : Z) : prog outcome outcome :=
  push a (Next (fun o =>
    match o with
    | Fulfilled _ => push b (Ret (Fulfilled VUndefined))
    | Rejected e => Ret (Rejected e)
    end)).

(** An anonymous generator function, an anonymous function. *)
Definition generator_function (g : prog outcome outcome) : jsval :=
  JFunction (mkFunction "" None (GeneratorCode g)).

Definition plain_function (p : prog completion completion) : jsval :=
  JFunction (mkFunction "" None (PlainCode p)).

(** The six middlewares of the first test of [convert.compose()]. *)
Definition six : list jsval :=
  [ JFunction (mkFunction "name" None (GeneratorCode (around 1 11)));
    plain_function (push 2 (Next (fun r =>
      then_ "next(...)" r (push 10 (Ret (Returned VUndefined))))));
    generator_function (around 3 9);
    (* co.wrap(function * (ctx, next) { push(4); yield next(); push(8) }) *)
    plain_function (push 4 (Next (fun r =>
      match after_yield r with
      | ReturnedPromise (Fulfilled _) =>
          push 8 (Ret (ReturnedPromise (Fulfilled VUndefined)))
      | other => Ret other
      end)));
    (* function * (next) { try { push(5); yield next } catch (e) { push(7) } } *)
    generator_function (push 5 (Next (fun o =>
      match o with
      | Fulfilled _ => Ret (Fulfilled VUndefined)
      | Rejected _ => push 7 (Ret (Fulfilled VUndefined))
      end)));
    plain_function (push 6 (Ret (Thrown (Error "")))) ].

(** [(ctx, next) => { push(ctx.path); return next().then(() => { push(ctx.path) }) }] *)
Definition log_path : JsFunction :=
  mkFunction "" None
    (PlainCode
       (Read (fun c =>
          Update (fun ctx => set_body (body ctx ++ [VString (path c)]) ctx)
            (Next (fun r =>
               then_ "next(...)" r
                 (Read (fun c' =>
                    Update (fun ctx => set_body (body ctx ++ [VString (path c')]) ctx)
                      (Ret (Returned VUndefined))))))))).

(** An upstream continuation that records the path it sees. *)
Definition upstream_log (ctx : Context) : completion * Context :=
  (ReturnedPromise (Fulfilled VUndefined),
   set_body (body ctx ++ [VString (path ctx)]) ctx).

(** [function * (next) { try { this.body = [1]; yield next } catch (e) { this.body.push(e.message) } }] *)
Definition catching : prog outcome outcome :=
  Update (set_body [VNumber 1])
    (Next (fun o =>
       match o with
       | Fulfilled _ => Ret (Fulfilled VUndefined)
       | Rejected (VError _ message) =>
           Update (fun ctx => set_body (body ctx ++ [VString message]) ctx)
             (Ret (Fulfilled VUndefined))
       | Rejected VUndefined =>
           Ret (Rejected
                  (TypeError "Cannot read properties of undefined (reading 'message')"))
       | Rejected VNull =>
           Ret (Rejected
                  (TypeError "Cannot read properties of null (reading 'message')"))
       | Rejected _ =>
           Update (fun ctx => set_body (body ctx ++ [VUndefined]) ctx)
             (Ret (Fulfilled VUndefined))
       end)).

(** The generator that ends a chain of generator functions. *)
Definition noop_generator (ctx : Context) : outcome * Context :=
  (Fulfilled VUndefined, ctx).

(** A downstream generator: [function * (next) { this.body.push(3) }]. *)
Definition downstream3 (ctx : Context) : outcome * Context :=
  (Fulfilled VUndefined, set_body (body ctx ++ [VNumber 3]) ctx).

(** [function * (next) { this.body.push(1); yield next; this.body.push(3) }] *)
Definition around13 : JsFunction :=
  mkFunction "" None (GeneratorCode (around 1 3)).

(** A continuation of the modern style: [() => { ctx.body.push(2); return Promise.resolve() }]. *)
Definition next2 (ctx : Context) : completion * Context :=
  (ReturnedPromise (Fulfilled VUndefined),
   set_body (body ctx ++ [VNumber 2]) ctx).

(** * Properties *)

(** ** Strings *)

Lemma starts_with_split (p s : string) :
  prefix p s = true <-> exists rest, s = p ++ rest.
Proof.
  revert s; induction p as [|a p IH]; intros s; simpl.
  - split; [exists s; reflexivity | destruct s; reflexivity].
  - destruct s as [|b s]; simpl.
    + split; [discriminate | intros [rest H]; discriminate].
    + destruct (ascii_dec a b) as [->|Hab].
      * rewrite IH. split; intros [rest H]; exists rest.
        -- now rewrite H.
        -- now inversion H.
      * split; [discriminate | intros [rest H]; congruence].
Qed.

Lemma index_at_start (p s : string) :
  index 0 p s = Some 0 <-> prefix p s = true.
Proof.
  destruct s as [|b s].
  - destruct p; simpl; split; congruence.
  - cbn [index]. destruct (prefix p (String b s)).
    + split; reflexivity.
    + destruct (index 0 p s); split; discriminate.
Qed.

Lemma indexOf_zero (s p : string) :
  (indexOf s p =? 0)%Z = prefix p s.
Proof.
  unfold indexOf. destruct (index 0 p s) as [n|] eqn:E.
  - destruct n.
    + symmetry. now apply index_at_start.
    + destruct (prefix p s) eqn:P.
      * apply index_at_start in P. congruence.
      * reflexivity.
  - destruct (prefix p s) eqn:P.
    + apply index_at_start in P. congruence.
    + reflexivity.
Qed.

Lemma substring_whole (s : string) : substring 0 (String.length s) s = s.
Proof. induction s; simpl; congruence. Qed.

Lemma substring_nothing (s : string) : substring 0 0 s = "".
Proof. destruct s; reflexivity. Qed.

Lemma substring_after (p r : string) :
  substring (String.length p) (String.length r) (p ++ r) = r.
Proof. induction p; simpl; [apply substring_whole | assumption]. Qed.

Lemma length_append (p r : string) :
  String.length (p ++ r) = String.length p + String.length r.
Proof. induction p; simpl; congruence. Qed.

(** Replacing a prefix by the empty string removes it from the front. *)
Lemma replace_at_start (p r : string) : replace (p ++ r) p "" = r.
Proof.
  unfold replace.
  assert (H : index 0 p (p ++ r) = Some 0).
  { apply index_at_start, starts_with_split. now exists r. }
  rewrite H, substring_nothing, length_append. simpl.
  replace (String.length p + String.length r - String.length p)
    with (String.length r) by lia.
  apply substring_after.
Qed.

Lemma slice_last_append (q : string) (c : ascii) :
  slice_last (q ++ String c "") = String c "".
Proof.
  unfold slice_last. rewrite length_append. simpl.
  replace (String.length q + 1 - 1) with (String.length q) by lia.
  induction q; simpl; [reflexivity | assumption].
Qed.

Lemma slice_last_cons (a b : ascii) (s : string) :
  slice_last (String a (String b s)) = slice_last (String b s).
Proof.
  unfold slice_last. simpl. now rewrite !Nat.sub_0_r.
Qed.

Lemma trailingSlash_split (p : string) :
  trailingSlash p = true <-> exists q, p = q ++ "/".
Proof.
  unfold trailingSlash. split.
  - induction p as [|a p IH]; [discriminate|].
    destruct p as [|b p].
    + change (slice_last (String a "")) with (String a "").
      intros H. apply String.eqb_eq in H. exists "". now rewrite H.
    + rewrite slice_last_cons. intros H. destruct (IH H) as [q Hq].
      exists (String a q). simpl. now rewrite Hq.
  - intros [q ->]. now rewrite slice_last_append.
Qed.

Lemma first_is_split (c : ascii) (s : string) :
  first_is c s = true <-> exists r, s = String c r.
Proof.
  destruct s as [|a s]; unfold first_is; simpl.
  - split; [discriminate | intros [r H]; discriminate].
  - rewrite Ascii.eqb_eq. split.
    + intros ->. now exists s.
    + intros [r H]. now inversion H.
Qed.

(** What [match] answers when the path starts with the prefix. *)
Lemma match_at_start (prefix rest : string) :
  match_ prefix (prefix ++ rest) =
    let newPath := if rest =? "" then "/" else rest in
    if trailingSlash prefix then Some newPath
    else if first_is slash newPath then Some newPath else None.
Proof.
  unfold match_. rewrite indexOf_zero.
  replace (String.prefix prefix (prefix ++ rest)) with true
    by (symmetry; apply starts_with_split; now exists rest).
  rewrite replace_at_start. simpl.
  destruct (trailingSlash prefix); [reflexivity|].
  now destruct (first_is slash (if rest =? "" then "/" else rest)).
Qed.

Lemma match_elsewhere (prefix path : string) :
  (forall rest, path <> prefix ++ rest) -> match_ prefix path = None.
Proof.
  intros H. unfold match_. rewrite indexOf_zero.
  destruct (String.prefix prefix path) eqn:P; [|reflexivity].
  apply starts_with_split in P. destruct P as [rest ->]. now elim (H rest).
Qed.

(** [match] never answers the empty string: [!newPath] only holds for
    [false]. *)
Lemma match_not_empty (prefix path newPath : string) :
  match_ prefix path = Some newPath -> not_ (Some newPath) = false.
Proof.
  unfold match_, not_.
  destruct (negb (indexOf path prefix =? 0)%Z); [discriminate|].
  set (r := replace path prefix "").
  assert (H : ((if r =? "" then "/" else r) =? "") = false).
  { destruct (r =? "") eqn:E; [reflexivity | assumption]. }
  destruct (trailingSlash prefix).
  - intros [= <-]. exact H.
  - destruct (negb (first_is slash (if r =? "" then "/" else r)));
      [discriminate | intros [= <-]; exact H].
Qed.

(** ** The classifier *)

Lemma typeof_function (x : jsval) :
  (typeof x =? "function") = is_callable x.
Proof. destruct x as [[| |[]| | | |]| | |]; reflexivity. Qed.

Lemma constructor_name_generator (fn : JsFunction) :
  (constructor_name fn =? "GeneratorFunction") = is_generator_function fn.
Proof.
  unfold constructor_name, is_generator_function. now destruct (code fn).
Qed.

Lemma convert_function (co_yield : value -> outcome) (fn : JsFunction) :
  convert co_yield (JFunction fn) =
    if is_generator_function fn
    then JsReturn (JFunction
           (mkFunction "converted"
              (Some (js_or (property (_name fn)) (VString (name fn))))
              (PlainCode (converted co_yield fn))))
    else JsReturn (JFunction fn).
Proof.
  unfold convert. rewrite typeof_function, constructor_name_generator. simpl.
  now destruct (is_generator_function fn).
Qed.

Lemma convert_back_function (fn : JsFunction) :
  convert_back (JFunction fn) =
    if is_generator_function fn
    then JsReturn (JFunction fn)
    else JsReturn (JFunction
           (mkFunction "converted"
              (Some (js_or (property (_name fn)) (VString (name fn))))
              (GeneratorCode (back_body fn)))).
Proof.
  unfold convert_back. rewrite typeof_function, constructor_name_generator.
  reflexivity.
Qed.

Lemma convert_modern (co_yield : value -> outcome) (mw : jsval) :
  is_callable mw = true ->
  exists m, convert co_yield mw = JsReturn m /\ is_modern m.
Proof.
  destruct mw as [| | |fn]; try discriminate. intros _.
  rewrite convert_function.
  destruct (is_generator_function fn) eqn:G; eexists; split; try reflexivity.
  - eexists; split; reflexivity.
  - exists fn; now split.
Qed.

Lemma map_convert_callable (co_yield : value -> outcome) (mws : list jsval) :
  Forall (fun mw => is_callable mw = true) mws ->
  exists ms,
    map_convert co_yield mws = inr ms /\
    Forall2 (fun mw m => convert co_yield mw = JsReturn m /\ is_modern m) mws ms.
Proof.
  induction 1 as [|mw mws Hmw _ IH].
  - exists []. split; [reflexivity | constructor].
  - destruct (convert_modern co_yield mw Hmw) as (m & Hm & Hmodern).
    destruct IH as (ms & Hms & Hall).
    exists (m :: ms). simpl. rewrite Hm, Hms. split; [reflexivity|].
    constructor; [now split | assumption].
Qed.

(** ** C3 *)

(** C3.  The matching function of [mount].  Whatever the prefix: there is
    no match unless the path starts with the prefix; when it does, the
    remainder is the path without that prefix, or "/" when nothing is left;
    a prefix that ends with "/" matches with that remainder; a prefix that
    does not end with "/" matches only when the remainder starts with "/".
    So "/images" matches "/images" as "/" and "/images/x" as "/x" and does
    not match "/imagesFoo". *)
Theorem match_behaviour (prefix path : string) :
  ((forall rest, path <> prefix ++ rest) -> match_ prefix path = None) /\
  (forall rest, path = prefix ++ rest ->
     let remainder := if rest =? "" then "/" else rest in
     ((exists p, prefix = p ++ "/") -> match_ prefix path = Some remainder) /\
     ((forall p, prefix <> p ++ "/") ->
        ((exists r, remainder = "/" ++ r) ->
           match_ prefix path = Some remainder) /\
        ((forall r, remainder <> "/" ++ r) -> match_ prefix path = None))) /\
  match_ "/images" "/images" = Some "/" /\
  match_ "/images" "/images/x" = Some "/x" /\
  match_ "/images" "/imagesFoo" = None.
Proof.
  split; [apply match_elsewhere|].
  split; [|repeat split; reflexivity].
  intros rest ->. rewrite match_at_start. cbv zeta.
  set (remainder := if rest =? "" then "/" else rest).
  destruct (trailingSlash prefix) eqn:T.
  - apply trailingSlash_split in T. split; [reflexivity|].
    intros H. destruct T as [p Hp]. now elim (H p).
  - split.
    + intros H. apply trailingSlash_split in H. congruence.
    + intros _. split.
      * intros H. apply (first_is_split slash) in H. now rewrite H.
      * intros H. destruct (first_is slash remainder) eqn:F; [|reflexivity].
        apply first_is_split in F. destruct F as [r Hr]. now elim (H r).
Qed.

Lemma match_behaviour_witness :
  match_ "/images/" "/lkajsldkjf" = None /\
  match_ "/images" "/images/x" = Some "/x" /\
  match_ "/images/" "/images/" = Some "/".
Proof.
  split; [|split].
  - refine (proj1 (match_behaviour "/images/" "/lkajsldkjf") _).
    intros rest H. discriminate H.
  - refine (proj1 (proj2 (proj1 (proj2 (match_behaviour "/images" "/images/x"))
                            "/x" eq_refl) _) _).
    + intros p H.
      assert (T : trailingSlash "/images" = true)
        by (apply trailingSlash_split; now exists p).
      discriminate T.
    + now exists "x".
  - refine (proj1 (proj1 (proj2 (match_behaviour "/images/" "/images/"))
                     "" eq_refl) _).
    now exists "/images".
Defined.

(** ** C4 *)

(** C4.  An adapter gives back a function that is already in the style it
    converts to: [convert] a function that is not a generator function,
    [convert.back] a generator function. *)
Theorem adapters_identity (co_yield : value -> outcome) (fn : JsFunction) :
  (is_generator_function fn = false ->
   convert co_yield (JFunction fn) = JsReturn (JFunction fn)) /\
  (is_generator_function fn = true ->
   convert_back (JFunction fn) = JsReturn (JFunction fn)).
Proof.
  rewrite convert_function, convert_back_function.
  split; intros ->; reflexivity.
Qed.

Lemma adapters_identity_witness :
  convert co_yield_value
    (JFunction (mkFunction "m" None (PlainCode (Next (fun r => Ret r))))) =
  JsReturn (JFunction (mkFunction "m" None (PlainCode (Next (fun r => Ret r))))) /\
  convert_back
    (JFunction (mkFunction "g" None (GeneratorCode (Next (fun o => Ret o))))) =
  JsReturn (JFunction (mkFunction "g" None (GeneratorCode (Next (fun o => Ret o))))).
Proof.
  split.
  - apply (adapters_identity co_yield_value
             (mkFunction "m" None (PlainCode (Next (fun r => Ret r))))).
    reflexivity.
  - apply (adapters_identity co_yield_value
             (mkFunction "g" None (GeneratorCode (Next (fun o => Ret o))))).
    reflexivity.
Defined.

(** ** C6 *)

(** C6 as stated fails: a generator function named [testing] whose [_name]
    is set to the empty string is wrapped into a function whose [_name] is
    "testing", not the [_name] of the original. *)
Lemma empty_override_not_propagated :
  _name (mkFunction "testing" (Some (VString "")) (GeneratorCode (Ret (Fulfilled VUndefined))))
    = Some (VString "") /\
  returned_name
    (convert co_yield_value
       (JFunction (mkFunction "testing" (Some (VString ""))
                     (GeneratorCode (Ret (Fulfilled VUndefined))))))
    = Some (VString "testing") /\
  returned_name
    (convert_back
       (JFunction (mkFunction "testing" (Some (VString ""))
                     (PlainCode (Ret (Returned VUndefined))))))
    = Some (VString "testing").
Proof. repeat split; reflexivity. Qed.

(** C6, amended.  The wrapper made by [convert] or by [convert.back]
    carries as [_name] the [_name] of the wrapped function when that is set
    to a truthy value, and the declared name of the wrapped function when
    [_name] is not set or is falsy (the empty string, for one). *)
Theorem wrapper_name (co_yield : value -> outcome) (fn : JsFunction)
  (r : jsresult) :
  (is_generator_function fn = true /\ r = convert co_yield (JFunction fn)) \/
  (is_generator_function fn = false /\ r = convert_back (JFunction fn)) ->
  (forall v, _name fn = Some v -> truthy v = true -> returned_name r = Some v) /\
  (forall v, _name fn = Some v -> truthy v = false ->
             returned_name r = Some (VString (name fn))) /\
  (_name fn = None -> returned_name r = Some (VString (name fn))).
Proof.
  intros H.
  assert (E : returned_name r =
                Some (js_or (property (_name fn)) (VString (name fn)))).
  { destruct H as [[G ->]|[G ->]].
    - now rewrite convert_function, G.
    - now rewrite convert_back_function, G. }
  rewrite E. unfold js_or. repeat split.
  - intros v -> T. simpl. now rewrite T.
  - intros v -> T. simpl. now rewrite T.
  - intros ->. reflexivity.
Qed.

Lemma wrapper_name_witness :
  returned_name
    (convert co_yield_value
       (JFunction (mkFunction "testing" None
                     (GeneratorCode (Ret (Fulfilled VUndefined))))))
  = Some (VString "testing").
Proof.
  apply (wrapper_name co_yield_value
           (mkFunction "testing" None (GeneratorCode (Ret (Fulfilled VUndefined))))).
  - left. split; reflexivity.
  - reflexivity.
Defined.

(** The same for [convert.back], as the test of the package has it. *)
Example back_testing :
  returned_name
    (convert_back
       (JFunction (mkFunction "testing" None (PlainCode (Ret (Returned VUndefined))))))
  = Some (VString "testing").
Proof. reflexivity. Qed.

(** ** C7 *)

(** C7.  [convert] and [convert.back] throw the TypeError "middleware must
    be a function" at every value that is not a function; nothing is
    wrapped or called. *)
Theorem non_callable_rejected (co_yield : value -> outcome) (x : jsval) :
  is_callable x = false ->
  convert co_yield x = JsThrow (TypeError "middleware must be a function") /\
  convert_back x = JsThrow (TypeError "middleware must be a function").
Proof.
  intros H. unfold convert, convert_back. rewrite typeof_function, H.
  split; reflexivity.
Qed.

Lemma non_callable_rejected_witness :
  convert co_yield_value (JArray []) =
    JsThrow (TypeError "middleware must be a function") /\
  convert_back (JArray []) =
    JsThrow (TypeError "middleware must be a function").
Proof. apply (non_callable_rejected co_yield_value (JArray [])). reflexivity. Defined.

(** ** C8 *)

(** C8.  [convert.compose(a, b, c, ...)] and [convert.compose([a, b, c, ...])]
    give the same result for every finite sequence of functions: each
    element is converted to the modern style and the converted sequence is
    handed to the composer. *)
Theorem compose_calling_conventions (compose : list jsval -> jsresult)
  (co_yield : value -> outcome) (mws : list jsval) :
  Forall (fun mw => is_callable mw = true) mws ->
  convert_compose compose co_yield mws =
    convert_compose compose co_yield [JArray mws] /\
  exists ms,
    Forall2 (fun mw m => convert co_yield mw = JsReturn m /\ is_modern m) mws ms /\
    convert_compose compose co_yield mws = compose ms.
Proof.
  intros H.
  assert (E : convert_compose compose co_yield mws =
              match map_convert co_yield mws with
              | inl e => JsThrow e
              | inr ms => compose ms
              end).
  { unfold convert_compose. destruct H as [|mw mws Hmw _]; [reflexivity|].
    destruct mw; try discriminate. reflexivity. }
  split; [exact E|].
  destruct (map_convert_callable co_yield mws H) as (ms & Hms & Hall).
  exists ms. split; [assumption|]. now rewrite E, Hms.
Qed.

Lemma compose_calling_conventions_witness :
  convert_compose koa_compose co_yield_value
    [JFunction (mkFunction "a" None (GeneratorCode (Next (fun o => Ret o))));
     JFunction (mkFunction "b" None (PlainCode (Next (fun r => Ret r))))] =
  convert_compose koa_compose co_yield_value
    [JArray
       [JFunction (mkFunction "a" None (GeneratorCode (Next (fun o => Ret o))));
        JFunction (mkFunction "b" None (PlainCode (Next (fun r => Ret r))))]].
Proof.
  apply (compose_calling_conventions koa_compose co_yield_value).
  repeat constructor.
Defined.

(** ** Execution of bodies *)

Lemma run_bind {N A B : Type} (p : prog N A) (f : A -> prog N B)
  (next : Context -> N * Context) (ctx : Context) :
  run (bind p f) next ctx =
    let (a, ctx') := run p next ctx in run (f a) next ctx'.
Proof.
  revert ctx; induction p as [r|k IH|u k IH|k IH]; intros ctx; simpl.
  - reflexivity.
  - apply IH.
  - apply IH.
  - destruct (next ctx) as [n ctx']. apply IH.
Qed.

Lemma calls_bind {N A B : Type} (p : prog N A) (f : A -> prog N B)
  (next : Context -> N * Context) (ctx : Context) :
  calls (bind p f) next ctx =
    calls p next ctx
    + let (a, ctx') := run p next ctx in calls (f a) next ctx'.
Proof.
  revert ctx; induction p as [r|k IH|u k IH|k IH]; intros ctx; simpl.
  - reflexivity.
  - apply IH.
  - apply IH.
  - destruct (next ctx) as [n ctx']. now rewrite IH.
Qed.

(** Only what the continuation does matters. *)
Lemma run_ext {N R : Type} (p : prog N R) (next next' : Context -> N * Context) :
  (forall c, next c = next' c) ->
  forall ctx, run p next ctx = run p next' ctx.
Proof.
  intros E. induction p as [r|k IH|u k IH|k IH]; intros ctx; simpl.
  - reflexivity.
  - apply IH.
  - apply IH.
  - rewrite <- E. destruct (next ctx) as [n ctx']. apply IH.
Qed.

(** Calling a body with a closure that has no locals: the closure is run
    at every call. *)
Lemma run_invoke_stateless {N M R : Type} (f : prog M R) (k : prog N M)
  (next : Context -> N * Context) (ctx : Context) :
  run (invoke f (stateless k) tt) next ctx = run f (run k next) ctx.
Proof.
  revert ctx; induction f as [r|g IH|u g IH|g IH]; intros ctx; simpl.
  - reflexivity.
  - apply IH.
  - apply IH.
  - rewrite run_bind. destruct (run k next ctx) as [m ctx']. apply IH.
Qed.

(** Calling a body with a closure is running the closure at every call
    of the continuation. *)
Lemma run_invoke {L N M R : Type} (f : prog M R) (k : closure L N M) (l : L)
  (next : Context -> N * Context) (ctx : Context) :
  run (invoke f k l) next ctx = fst (run_with f k l next ctx).
Proof.
  revert l ctx; induction f as [r|g IH|u g IH|g IH]; intros l ctx; simpl.
  - reflexivity.
  - apply IH.
  - apply IH.
  - destruct (k l) as [p l']. rewrite run_bind.
    destruct (run p next ctx) as [m ctx']. rewrite IH.
    now destruct (run_with (g m) k l' next ctx').
Qed.

(** ** mount *)

(** The continuation of the source does what the specification says. *)
Lemma run_mount_next (prev newPath : string)
  (upstream : Context -> completion * Context) (ctx : Context) :
  run (mount_next prev newPath) upstream ctx =
    restoring_continuation prev newPath upstream ctx.
Proof.
  unfold mount_next, restoring_continuation. simpl.
  destruct (upstream (set_path prev ctx)) as [[v|[v|e]|e] ctx']; reflexivity.
Qed.

Lemma target_run_eq (prefix : string) (downstream : jsval)
  (upstream : Context -> completion * Context) (ctx : Context) (newPath : string) :
  target_run prefix downstream upstream ctx newPath =
    run (call_value "downstream" downstream)
      (restoring_continuation (path ctx) newPath upstream)
      (set_path newPath (set_mountPath prefix ctx)).
Proof.
  unfold target_run. rewrite run_invoke_stateless.
  apply run_ext. intros c. apply run_mount_next.
Qed.

Lemma mounted_run (prefix : string) (downstream : jsval)
  (upstream : Context -> completion * Context) (ctx : Context) (newPath : string) :
  match_ prefix (path ctx) = Some newPath ->
  run (mounted prefix downstream) upstream ctx =
    mounted_result (path ctx) (target_run prefix downstream upstream ctx newPath).
Proof.
  intros M. unfold mounted. cbn [run]. rewrite M, (match_not_empty _ _ _ M).
  cbn [run]. rewrite run_bind. fold (target_run prefix downstream upstream ctx newPath).
  destruct (target_run prefix downstream upstream ctx newPath)
    as [[v|[v|e]|e] ctx']; reflexivity.
Qed.

Lemma mounted_run_no_match (prefix : string) (downstream : jsval)
  (upstream : Context -> completion * Context) (ctx : Context) :
  match_ prefix (path ctx) = None ->
  run (mounted prefix downstream) upstream ctx = upstream ctx.
Proof.
  intros M. unfold mounted. cbn [run]. rewrite M. simpl.
  now destruct (upstream ctx).
Qed.

(** What [mount] returns for a prefix other than "/". *)
Lemma mount_inv (compose : list jsval -> jsresult) (prefix : string)
  (app m downstream : jsval) :
  mount compose (JValue (VString prefix)) app = JsReturn m ->
  prefix <> "/" ->
  normalize compose app = JsReturn downstream ->
  m = JFunction (mkFunction "" None (PlainCode (mounted prefix downstream))).
Proof.
  unfold mount. simpl. intros H Hp Hn. rewrite Hn in H.
  destruct (negb (first_is slash prefix)); [discriminate|].
  destruct (String.eqb_spec prefix "/") as [->|_]; [now elim Hp|].
  now inversion H.
Qed.

Lemma call_mounted (compose : list jsval -> jsresult) (prefix : string)
  (app m downstream : jsval) (upstream : Context -> completion * Context)
  (ctx : Context) (newPath : string) :
  mount compose (JValue (VString prefix)) app = JsReturn m ->
  prefix <> "/" ->
  normalize compose app = JsReturn downstream ->
  match_ prefix (path ctx) = Some newPath ->
  call m upstream ctx =
    mounted_result (path ctx) (target_run prefix downstream upstream ctx newPath).
Proof.
  intros Hm Hp Hn M. rewrite (mount_inv _ _ _ _ _ Hm Hp Hn).
  unfold call. simpl. now apply mounted_run.
Qed.

Lemma mounted_result_mountPath (prev : string) (t : completion * Context) :
  mountPath (snd (mounted_result prev t)) = mountPath (snd t).
Proof. destruct t as [[v|[v|e]|e] c]; reflexivity. Qed.

Lemma restoring_continuation_mountPath (prev newPath : string)
  (upstream : Context -> completion * Context) :
  (forall c, mountPath (snd (upstream c)) = mountPath c) ->
  forall c,
    mountPath (snd (restoring_continuation prev newPath upstream c)) = mountPath c.
Proof.
  intros H c. unfold restoring_continuation.
  specialize (H (set_path prev c)).
  destruct (upstream (set_path prev c)) as [[v|[v|e]|e] c']; exact H.
Qed.

Lemma keeps_mountPath_ret {N R : Type} (r : R) : keeps_mountPath (@Ret N R r).
Proof. intros next _ ctx. reflexivity. Qed.

Lemma keeps_mountPath_next {N R : Type} (k : N -> prog N R) :
  (forall n, keeps_mountPath (k n)) -> keeps_mountPath (Next k).
Proof.
  intros H next Hn ctx. simpl. pose proof (Hn ctx) as E.
  destruct (next ctx) as [n ctx']. simpl in E. rewrite <- E. now apply H.
Qed.

Lemma keeps_mountPath_update {N R : Type} (f : Context -> Context)
  (k : prog N R) :
  (forall c, mountPath (f c) = mountPath c) ->
  keeps_mountPath k -> keeps_mountPath (Update f k).
Proof.
  intros Hf H next Hn ctx. simpl. rewrite <- (Hf ctx). now apply H.
Qed.

Lemma keeps_mountPath_read {N R : Type} (k : Context -> prog N R) :
  (forall c, keeps_mountPath (k c)) -> keeps_mountPath (Read k).
Proof. intros H next Hn ctx. simpl. now apply H. Qed.

Section Mounted.

Variable compose : list jsval -> jsresult.
Variables (prefix : string) (app m downstream : jsval).
Variable upstream : Context -> completion * Context.
Variables (ctx : Context) (newPath : string).

(** [m] is what [mount(prefix, app)] returned, the prefix is not "/",
    [downstream] is the normalized target, and the path of [ctx]
    matches the prefix with [newPath] as remainder. *)
Hypothesis Hmount : mount compose (JValue (VString prefix)) app = JsReturn m.
Hypothesis Hgeneral : prefix <> "/".
Hypothesis Hnormal : normalize compose app = JsReturn downstream.
Hypothesis Hmatch : match_ prefix (path ctx) = Some newPath.

(** C5.  On a matching path the mounted function runs its target on the
    context with [path] set to the remainder and [mountPath] set to the
    prefix, and hands it a continuation that puts [path] back to the
    value before the mount, then calls the upstream continuation, sets
    [path] to the remainder again when the promise of the upstream
    continuation is fulfilled, and passes on its rejection. *)
Theorem mounted_on_match :
  let start := set_path newPath (set_mountPath prefix ctx) in
  path start = newPath /\
  mountPath start = Some prefix /\
  body start = body ctx /\
  call m upstream ctx =
    mounted_result (path ctx)
      (run (call_value "downstream" downstream)
         (restoring_continuation (path ctx) newPath upstream) start) /\
  (forall c r c',
     upstream (set_path (path ctx) c) = (r, c') ->
     restoring_continuation (path ctx) newPath upstream c =
       match r with
       | ReturnedPromise (Fulfilled _) =>
           (ReturnedPromise (Fulfilled VUndefined), set_path newPath c')
       | ReturnedPromise (Rejected e) => (ReturnedPromise (Rejected e), c')
       | Returned v => (Thrown (no_then "upstream(...)" v), c')
       | Thrown e => (Thrown e, c')
       end).
Proof.
  cbv zeta. repeat split.
  - rewrite (call_mounted _ _ _ _ _ _ _ _ Hmount Hgeneral Hnormal Hmatch).
    now rewrite target_run_eq.
  - intros c r c' E. unfold restoring_continuation. now rewrite E.
Qed.

(** C1, amended.  When the target returns, or its promise is fulfilled,
    the promise of the mounted function is fulfilled with [path] put
    back to the value it had before the call.  When the promise of the
    target is rejected, or the target throws, the error is passed on and
    the context is left as the target left it: [path] is not put back. *)
Theorem mounted_path_restored (r : completion) (ctx_t : Context) :
  target_run prefix downstream upstream ctx newPath = (r, ctx_t) ->
  match r with
  | Returned _ | ReturnedPromise (Fulfilled _) =>
      fst (call m upstream ctx) = ReturnedPromise (Fulfilled VUndefined) /\
      path (snd (call m upstream ctx)) = path ctx
  | ReturnedPromise (Rejected e) =>
      call m upstream ctx = (ReturnedPromise (Rejected e), ctx_t)
  | Thrown e => call m upstream ctx = (Thrown e, ctx_t)
  end.
Proof.
  intros E.
  rewrite (call_mounted _ _ _ _ _ _ _ _ Hmount Hgeneral Hnormal Hmatch), E.
  destruct r as [v|[v|e]|e]; simpl; auto.
Qed.

(** C9, amended.  The mounted function sets [mountPath] to the prefix
    before its target runs and never writes it again: when it has
    finished, however it ends, [mountPath] is what the target left.  So
    when neither the target nor the upstream continuation assigns
    [mountPath], it is still the prefix. *)
Theorem mountPath_not_restored :
  mountPath (snd (call m upstream ctx)) =
    mountPath (snd (target_run prefix downstream upstream ctx newPath)) /\
  (keeps_mountPath (call_value "downstream" downstream) ->
   (forall c, mountPath (snd (upstream c)) = mountPath c) ->
   mountPath (snd (call m upstream ctx)) = Some prefix).
Proof.
  rewrite (call_mounted _ _ _ _ _ _ _ _ Hmount Hgeneral Hnormal Hmatch).
  rewrite mounted_result_mountPath. split; [reflexivity|].
  intros Ht Hu. rewrite target_run_eq, Ht; [reflexivity|].
  now apply restoring_continuation_mountPath.
Qed.

(** C10, amended.  When the target returns, the mounted function returns
    a promise, also when what the target returned is not a promise; a
    target that succeeded gives a promise fulfilled with [undefined],
    whatever the value of the target was; a rejection is passed on.
    When the target throws, the mounted function throws. *)
Theorem mounted_returns_promise (r : completion) (ctx_t : Context) :
  target_run prefix downstream upstream ctx newPath = (r, ctx_t) ->
  fst (call m upstream ctx) =
    match r with
    | Returned _ | ReturnedPromise (Fulfilled _) =>
        ReturnedPromise (Fulfilled VUndefined)
    | ReturnedPromise (Rejected e) => ReturnedPromise (Rejected e)
    | Thrown e => Thrown e
    end.
Proof.
  intros E.
  rewrite (call_mounted _ _ _ _ _ _ _ _ Hmount Hgeneral Hnormal Hmatch), E.
  now destruct r as [v|[v|e]|e].
Qed.

End Mounted.

(** C1 as stated fails: mounted at "/foo" and called on the path
    "/foo/bar", a target whose promise is rejected leaves the mounted
    function with a rejected promise and the path "/bar". *)
Lemma rejected_target_path_not_restored :
  match_ "/foo" "/foo/bar" = Some "/bar" /\
  call_returned (mount koa_compose (JValue (VString "/foo")) (JFunction failing))
    noop (context "/foo/bar")
  = Some (ReturnedPromise (Rejected (Error "boom")),
          mkContext "/bar" (Some "/foo") []) /\
  path (mkContext "/bar" (Some "/foo") []) <> path (context "/foo/bar").
Proof. repeat split; try reflexivity. discriminate. Qed.

Lemma mounted_path_restored_witness :
  fst (call (JFunction (mkFunction "" None (PlainCode (mounted "/foo" (JFunction hello)))))
         noop (context "/foo/bar"))
  = ReturnedPromise (Fulfilled VUndefined) /\
  path (snd (call (JFunction (mkFunction "" None (PlainCode (mounted "/foo" (JFunction hello)))))
               noop (context "/foo/bar")))
  = "/foo/bar".
Proof.
  apply (mounted_path_restored koa_compose "/foo" (JFunction hello)
           (JFunction (mkFunction "" None (PlainCode (mounted "/foo" (JFunction hello)))))
           (JFunction hello) noop (context "/foo/bar") "/bar"
           eq_refl ltac:(discriminate) eq_refl eq_refl
           (ReturnedPromise (Fulfilled VUndefined))
           (mkContext "/bar" (Some "/foo") [VNumber 1; VNumber 2])).
  reflexivity.
Defined.

Lemma mounted_on_match_witness :
  call (JFunction (mkFunction "" None (PlainCode (mounted "/foo" (JFunction hello)))))
    noop (context "/foo/bar")
  = (ReturnedPromise (Fulfilled VUndefined),
     mkContext "/foo/bar" (Some "/foo") [VNumber 1; VNumber 2]).
Proof.
  etransitivity.
  - apply (mounted_on_match koa_compose "/foo" (JFunction hello)
             (JFunction (mkFunction "" None (PlainCode (mounted "/foo" (JFunction hello)))))
             (JFunction hello) noop (context "/foo/bar") "/bar"
             eq_refl ltac:(discriminate) eq_refl eq_refl).
  - reflexivity.
Defined.

(** C9 as stated fails: with [mount('/foo', mount('/bar', hello))] called
    on the path "/foo/bar", [mountPath] is "/bar" when the function
    mounted at "/foo" has finished. *)
Lemma nested_mount_mountPath :
  call_returned nested_mount noop (context "/foo/bar")
  = Some (ReturnedPromise (Fulfilled VUndefined),
          mkContext "/foo/bar" (Some "/bar") [VNumber 1; VNumber 2]) /\
  Some "/bar" <> Some "/foo".
Proof. split; [reflexivity | discriminate]. Qed.

Lemma hello_keeps_mountPath :
  keeps_mountPath (call_value "downstream" (JFunction hello)).
Proof.
  apply keeps_mountPath_update; [reflexivity|].
  apply keeps_mountPath_next. intros [v|[v|e]|e]; simpl.
  - apply keeps_mountPath_ret.
  - apply keeps_mountPath_update; [reflexivity | apply keeps_mountPath_ret].
  - apply keeps_mountPath_ret.
  - apply keeps_mountPath_ret.
Qed.

Lemma mountPath_not_restored_witness :
  mountPath
    (snd (call (JFunction (mkFunction "" None (PlainCode (mounted "/foo" (JFunction hello)))))
            noop (context "/foo/bar")))
  = Some "/foo".
Proof.
  apply (mountPath_not_restored koa_compose "/foo" (JFunction hello)
           (JFunction (mkFunction "" None (PlainCode (mounted "/foo" (JFunction hello)))))
           (JFunction hello) noop (context "/foo/bar") "/bar"
           eq_refl ltac:(discriminate) eq_refl eq_refl).
  - exact hello_keeps_mountPath.
  - reflexivity.
Defined.

(** C10 as stated fails: mounted at "/foo" and called on the path
    "/foo/bar", a target that throws makes the mounted function throw; no
    promise is returned. *)
Lemma throwing_target_no_promise :
  match_ "/foo" "/foo/bar" = Some "/bar" /\
  call_returned (mount koa_compose (JValue (VString "/foo")) (JFunction throwing))
    noop (context "/foo/bar")
  = Some (Thrown (Error "boom"), mkContext "/bar" (Some "/foo") []).
Proof. split; reflexivity. Qed.

Lemma mounted_returns_promise_witness :
  fst (call (JFunction (mkFunction "" None (PlainCode (mounted "/prefix" (JFunction status204)))))
         noop (context "/prefix/lkjasdf"))
  = ReturnedPromise (Fulfilled VUndefined).
Proof.
  apply (mounted_returns_promise koa_compose "/prefix" (JFunction status204)
           (JFunction (mkFunction "" None (PlainCode (mounted "/prefix" (JFunction status204)))))
           (JFunction status204) noop (context "/prefix/lkjasdf") "/lkjasdf"
           eq_refl ltac:(discriminate) eq_refl eq_refl
           (Returned VUndefined)
           (mkContext "/lkjasdf" (Some "/prefix") [VNumber 204])).
  reflexivity.
Defined.

(** ** convert.back: the guard *)

(** Once the flag is set, the downstream generator is not run again. *)
Lemma calls_once_called {R : Type} (p : prog completion R)
  (next : Context -> outcome * Context) (ctx : Context) :
  calls (invoke p guarded_next true) next ctx = 0.
Proof.
  revert ctx; induction p as [r|k IH|u k IH|k IH]; intros ctx; simpl.
  - reflexivity.
  - apply IH.
  - apply IH.
  - apply IH.
Qed.

Lemma calls_guarded {R : Type} (p : prog completion R)
  (next : Context -> outcome * Context) (ctx : Context) :
  calls (invoke p guarded_next false) next ctx <= 1.
Proof.
  revert ctx; induction p as [r|k IH|u k IH|k IH]; intros ctx; simpl.
  - lia.
  - apply IH.
  - apply IH.
  - destruct (next ctx) as [o ctx']. simpl. rewrite calls_once_called. lia.
Qed.

Lemma calls_back_body (mw : JsFunction)
  (next : Context -> outcome * Context) (ctx : Context) :
  calls (back_body mw) next ctx <= 1.
Proof.
  unfold back_body. rewrite calls_bind.
  pose proof (calls_guarded (call_function mw) next ctx) as H.
  destruct (run (invoke (call_function mw) guarded_next false) next ctx).
  simpl. lia.
Qed.

(** Once the flag is set, every call of the continuation is answered by
    the rejected promise. *)
Lemma handed_once_called {R : Type} (p : prog completion R)
  (next : Context -> outcome * Context) (ctx : Context) :
  Forall
    (eq (ReturnedPromise (Rejected (Error "next() called multiple times"))))
    (handed p guarded_next true next ctx).
Proof.
  unfold handed.
  revert ctx; induction p as [r|k IH|u k IH|k IH]; intros ctx; simpl.
  - constructor.
  - apply IH.
  - apply IH.
  - specialize (IH (ReturnedPromise (Rejected (Error "next() called multiple times"))) ctx).
    destruct (run_with _ guarded_next true next ctx) as [e ms].
    constructor; [reflexivity | exact IH].
Qed.

Lemma handed_guarded {R : Type} (p : prog completion R)
  (next : Context -> outcome * Context) (ctx : Context) :
  match handed p guarded_next false next ctx with
  | [] => True
  | first :: later =>
      (exists o, first = ReturnedPromise o) /\
      Forall
        (eq (ReturnedPromise (Rejected (Error "next() called multiple times"))))
        later
  end.
Proof.
  unfold handed.
  revert ctx; induction p as [r|k IH|u k IH|k IH]; intros ctx; simpl.
  - exact I.
  - apply IH.
  - apply IH.
  - destruct (next ctx) as [o ctx']. simpl.
    pose proof (handed_once_called (k (ReturnedPromise o)) next ctx') as H.
    unfold handed in H.
    destruct (run_with _ guarded_next true next ctx') as [e ms].
    split; [now exists o | exact H].
Qed.

(** C2.  [convert.back] wraps a function [fn] that is not a generator
    function into a generator function whose body is [fn] run with the
    guarded continuation, and which runs the downstream generator at most
    once, whatever [fn] does: the first call of the continuation handed to
    [fn] is answered by the promise of the downstream generator, every
    later call by a promise rejected with the error
    "next() called multiple times".  When [fn] calls the continuation
    twice, the first call runs the downstream generator, on the context
    [fn] prepared, and its effects stay; the second call hands [fn] the
    rejected promise and changes nothing; the downstream generator has run
    once. *)
Theorem next_guard (fn : JsFunction) :
  is_generator_function fn = false ->
  (exists w, convert_back (JFunction fn) = JsReturn (JFunction w) /\
             code w = GeneratorCode (back_body fn)) /\
  (forall downstream ctx,
     run (back_body fn) downstream ctx =
       let (r, ctx') :=
         fst (run_with (call_function fn) guarded_next false downstream ctx) in
       (yield_resolved r, ctx')) /\
  (forall downstream ctx, calls (back_body fn) downstream ctx <= 1) /\
  (forall downstream ctx,
     match handed (call_function fn) guarded_next false downstream ctx with
     | [] => True
     | first :: later =>
         (exists o, first = ReturnedPromise o) /\
         Forall
           (eq (ReturnedPromise (Rejected (Error "next() called multiple times"))))
           later
     end) /\
  (forall before between after finish,
     call_function fn = calls_twice before between after finish ->
     forall downstream ctx o ctx1,
       downstream (before ctx) = (o, ctx1) ->
       let r1 := ReturnedPromise o in
       let r2 := ReturnedPromise (Rejected (Error "next() called multiple times")) in
       let ctx2 := after r1 r2 (between r1 ctx1) in
       handed (call_function fn) guarded_next false downstream ctx = [r1; r2] /\
       run (back_body fn) downstream ctx =
         (yield_resolved (finish r1 r2 ctx2), ctx2) /\
       calls (back_body fn) downstream ctx = 1).
Proof.
  intros G. split; [|split; [|split; [|split]]].
  - rewrite convert_back_function, G. eexists. split; reflexivity.
  - intros downstream ctx. unfold back_body.
    now rewrite run_bind, run_invoke.
  - intros downstream ctx. apply calls_back_body.
  - intros downstream ctx. apply handed_guarded.
  - intros before between after finish E downstream ctx o ctx1 D.
    unfold back_body, handed. rewrite E. unfold calls_twice. simpl.
    rewrite D. repeat split; reflexivity.
Qed.

Lemma next_guard_witness :
  handed (call_function next_twice) guarded_next false downstream3
    (mkContext "/" None [VNumber 1]) =
    [ReturnedPromise (Fulfilled VUndefined);
     ReturnedPromise (Rejected (Error "next() called multiple times"))] /\
  run (back_body next_twice) downstream3 (mkContext "/" None [VNumber 1]) =
    (Rejected (Error "next() called multiple times"),
     mkContext "/" None [VNumber 1; VNumber 2; VNumber 3]) /\
  calls (back_body next_twice) downstream3 (mkContext "/" None [VNumber 1]) = 1.
Proof.
  refine (proj2 (proj2 (proj2 (proj2 (next_guard next_twice eq_refl))))
            _ _ _ _ eq_refl downstream3 (mkContext "/" None [VNumber 1])
            (Fulfilled VUndefined)
            (mkContext "/" None [VNumber 1; VNumber 2; VNumber 3]) eq_refl).
Defined.

(** ** The tests of the package, run on the model *)

(** A converted generator function runs around its continuation. *)
Example convert_yield_next :
  call_returned (convert co_yield_value (generator_function (around 1 3)))
    (fun ctx => (ReturnedPromise (Fulfilled VUndefined),
                 set_body (body ctx ++ [VNumber 2]) ctx))
    (context "/")
  = Some (ReturnedPromise (Fulfilled VUndefined),
          mkContext "/" None [VNumber 1; VNumber 2; VNumber 3]).
Proof. reflexivity. Qed.

(** Six middlewares of both styles, composed. *)
Example compose_six :
  call_returned (convert_compose koa_compose co_yield_value [JArray six])
    noop (context "/")
  = Some (ReturnedPromise (Fulfilled VUndefined),
          mkContext "/" None
            (map VNumber [1; 2; 3; 4; 5; 6; 7; 8; 9; 10; 11]%Z)) /\
  convert_compose koa_compose co_yield_value six =
    convert_compose koa_compose co_yield_value [JArray six].
Proof. split; reflexivity. Qed.

(** The target sees the mounted path, the upstream continuation the path
    of the request, and the path of the request is back in the end. *)
Example mount_correct_path :
  call_returned (mount koa_compose (JValue (VString "/foo")) (JFunction log_path))
    upstream_log (context "/foo/bar")
  = Some (ReturnedPromise (Fulfilled VUndefined),
          mkContext "/foo/bar" (Some "/foo")
            [VString "/bar"; VString "/foo/bar"; VString "/bar"]).
Proof. reflexivity. Qed.

(** A request outside the prefix goes to the upstream continuation. *)
Example mount_no_match :
  call_returned (mount koa_compose (JValue (VString "/prefix")) (JFunction status204))
    upstream_log (context "/prefixlaksjdf")
  = Some (ReturnedPromise (Fulfilled VUndefined),
          mkContext "/prefixlaksjdf" None [VString "/prefixlaksjdf"]).
Proof. reflexivity. Qed.

(** An application is mounted as the composition of its middleware. *)
Example mount_application :
  call_returned
    (mount koa_compose (JValue (VString "/foo"))
       (JApplication [JFunction hello; JFunction log_path]))
    upstream_log (context "/foo")
  = Some (ReturnedPromise (Fulfilled VUndefined),
          mkContext "/foo" (Some "/foo")
            [VNumber 1; VString "/"; VString "/foo"; VString "/"; VNumber 2]).
Proof. reflexivity. Qed.

(** Mounted at "/", the target is returned as it is. *)
Example mount_at_root :
  mount koa_compose (JFunction hello) (JValue VUndefined) = JsReturn (JFunction hello) /\
  mount koa_compose (JValue (VString "/")) (JFunction hello) = JsReturn (JFunction hello).
Proof. split; reflexivity. Qed.

(** The guard of [convert.back] under a generator function that catches. *)
Example back_guards_multiple_calls :
  run catching (run (back_body next_twice) noop_generator) (context "/")
  = (Fulfilled VUndefined,
     mkContext "/" None
       [VNumber 1; VNumber 2; VString "next() called multiple times"]).
Proof. reflexivity. Qed.

(** The answers of [match] on the inputs of its comment in the source. *)
Example match_table :
  match_ "/images/" "/lkajsldkjf" = None /\
  match_ "/images" "/images" = Some "/" /\
  match_ "/images/" "/images" = None /\
  match_ "/images/" "/images/asdf" = Some "asdf".
Proof. repeat split; reflexivity. Qed.


(** * More properties of the package *)

(** ** match *)

Lemma append_empty_r (s : string) : s ++ "" = s.
Proof. induction s; simpl; congruence. Qed.

Lemma append_associative (a b c : string) : (a ++ b) ++ c = a ++ (b ++ c).
Proof. induction a; simpl; congruence. Qed.

Lemma append_cancel (a x y : string) : a ++ x = a ++ y -> x = y.
Proof. induction a; simpl; intros H; [assumption | apply IHa; congruence]. Qed.

Lemma append_empty (a b : string) : a ++ b = "" -> b = "".
Proof. destruct a; simpl; [trivial | discriminate]. Qed.

Lemma length_empty (s : string) : String.length s = 0 -> s = "".
Proof. destruct s; [reflexivity | discriminate]. Qed.

(** A string does not start with itself followed by something. *)
Lemma not_own_extension (p q rest : string) :
  p = (p ++ q) ++ rest -> q = "".
Proof.
  intros H. apply (f_equal String.length) in H.
  rewrite !length_append in H. apply length_empty. lia.
Qed.

Lemma slice_last_append_nonempty (a b : string) :
  b <> "" -> slice_last (a ++ b) = slice_last b.
Proof.
  intros Hb. induction a as [|c a IH]; [reflexivity|].
  simpl. destruct (a ++ b) as [|c' s] eqn:E.
  - apply append_empty in E. contradiction.
  - now rewrite slice_last_cons.
Qed.

Lemma match_no_prefix (prefix path : string) :
  String.prefix prefix path = false -> match_ prefix path = None.
Proof. intros P. unfold match_. now rewrite indexOf_zero, P. Qed.

(** X1.  A match splits the path: the prefix followed by the new path
    gives the path back, unless the path is the prefix itself, for which
    the new path is "/".  The new path is never empty. *)
Theorem match_splits_path (prefix path newPath : string) :
  match_ prefix path = Some newPath ->
  newPath <> "" /\
  (path = prefix ++ newPath \/ (path = prefix /\ newPath = "/")).
Proof.
  intros M. destruct (String.prefix prefix path) eqn:P.
  - apply starts_with_split in P. destruct P as [rest ->].
    rewrite match_at_start in M. cbv zeta in M.
    assert (E : newPath = if rest =? "" then "/" else rest).
    { destruct (trailingSlash prefix); [congruence|].
      destruct (first_is slash (if rest =? "" then "/" else rest)); congruence. }
    clear M. destruct (String.eqb_spec rest "") as [Hrest|Hrest].
    + rewrite E, Hrest. split; [discriminate|]. right.
      now rewrite append_empty_r.
    + rewrite E. split; [assumption | now left].
  - rewrite (match_no_prefix _ _ P) in M. discriminate.
Qed.

Lemma match_splits_path_witness :
  "/x" <> "" /\
  ("/images/x" = "/images" ++ "/x" \/ ("/images/x" = "/images" /\ "/x" = "/")).
Proof. apply (match_splits_path "/images" "/images/x" "/x"). reflexivity. Defined.

(** X2.  Under a prefix that does not end with "/", the new path always
    begins with "/". *)
Theorem match_keeps_leading_slash (prefix path newPath : string) :
  (forall q, prefix <> q ++ "/") ->
  match_ prefix path = Some newPath ->
  exists r, newPath = String slash r.
Proof.
  intros T M.
  assert (Tb : trailingSlash prefix = false).
  { destruct (trailingSlash prefix) eqn:E; [|reflexivity].
    apply trailingSlash_split in E. destruct E as [q Hq]. now elim (T q). }
  unfold match_ in M. rewrite Tb in M.
  destruct (negb (indexOf path prefix =? 0)%Z); [discriminate|].
  set (r := replace path prefix "") in M.
  destruct (first_is slash (if r =? "" then "/" else r)) eqn:F;
    [|discriminate].
  simpl in M. injection M as <-. now apply first_is_split.
Qed.

Lemma match_keeps_leading_slash_witness : exists r, "/x" = String slash r.
Proof.
  apply (match_keeps_leading_slash "/images" "/images/x" "/x").
  - intros q H.
    assert (T : trailingSlash "/images" = true)
      by (apply trailingSlash_split; now exists q).
    discriminate T.
  - reflexivity.
Defined.

(** X3.  Under a prefix that ends with "/", what follows the prefix is the
    new path as it is: it begins with "/" only when the path has a second
    "/" there. *)
Theorem match_trailing_slash_rest (q rest : string) :
  rest <> "" ->
  match_ (q ++ "/") ((q ++ "/") ++ rest) = Some rest /\
  (first_is slash rest = false ->
   forall r, match_ (q ++ "/") ((q ++ "/") ++ rest) <> Some (String slash r)).
Proof.
  intros Hrest.
  assert (E : match_ (q ++ "/") ((q ++ "/") ++ rest) = Some rest).
  { rewrite match_at_start. cbv zeta.
    replace (trailingSlash (q ++ "/")) with true
      by (symmetry; apply trailingSlash_split; now exists q).
    destruct (String.eqb_spec rest "") as [->|_]; [now elim Hrest | reflexivity]. }
  split; [exact E|].
  intros F r H. rewrite E in H. injection H as ->.
  assert (T : first_is slash (String slash r) = true)
    by (apply first_is_split; now exists r).
  congruence.
Qed.

Lemma match_trailing_slash_rest_witness :
  match_ "/images/" "/images/asdf" = Some "asdf".
Proof.
  refine (proj1 (match_trailing_slash_rest "/images" "asdf" _)). discriminate.
Defined.

(** X4.  A path that is the prefix itself matches, with "/" as new path,
    whatever the prefix; a prefix that ends with "/" does not match the
    path that lacks this "/". *)
Theorem match_exact_prefix (prefix : string) :
  match_ prefix prefix = Some "/" /\
  match_ (prefix ++ "/") prefix = None.
Proof.
  split.
  - rewrite <- (append_empty_r prefix) at 2. rewrite match_at_start.
    simpl. now destruct (trailingSlash prefix).
  - apply match_elsewhere. intros rest H.
    apply not_own_extension in H. discriminate.
Qed.

Lemma trailingSlash_append (outer inner : string) :
  inner <> "" -> trailingSlash (outer ++ inner) = trailingSlash inner.
Proof.
  intros H. unfold trailingSlash. now rewrite slice_last_append_nonempty.
Qed.

(** A prefix that begins with "/" and is not "/" does not match "/". *)
Lemma match_root_none (inner : string) :
  first_is slash inner = true -> inner <> "/" -> match_ inner "/" = None.
Proof.
  intros F N. apply match_elsewhere. intros rest H.
  apply first_is_split in F. destruct F as [r ->].
  simpl in H. injection H as H. symmetry in H.
  destruct r; [now elim N | discriminate].
Qed.

(** X5.  Prefixes compose: matching under [outer] and then under [inner]
    on what is left is matching under [outer ++ inner], for every [inner]
    that [mount] wraps (it begins with "/" and is not "/"). *)
Theorem match_composes (outer inner path : string) :
  first_is slash inner = true ->
  inner <> "/" ->
  match_nested outer inner path = match_ (outer ++ inner) path.
Proof.
  intros F N. unfold match_nested.
  assert (Ne : inner <> "") by (intros ->; discriminate F).
  destruct (String.prefix outer path) eqn:P.
  - apply starts_with_split in P. destruct P as [rest ->].
    destruct (String.prefix inner rest) eqn:Q.
    + (* the rest starts with the inner prefix, hence with "/" *)
      apply starts_with_split in Q. destruct Q as [rest2 ->].
      assert (S1 : first_is slash (inner ++ rest2) = true).
      { apply first_is_split in F. destruct F as [r ->].
        apply first_is_split. now exists (r ++ rest2). }
      assert (E1 : (inner ++ rest2 =? "") = false).
      { apply String.eqb_neq. intros H.
        apply first_is_split in S1. destruct S1 as [r Hr]. congruence. }
      rewrite match_at_start. cbv zeta. rewrite E1, S1.
      replace (if trailingSlash outer
               then Some (inner ++ rest2) else Some (inner ++ rest2))
        with (Some (inner ++ rest2)) by now destruct (trailingSlash outer).
      rewrite <- append_associative, !match_at_start. cbv zeta.
      now rewrite trailingSlash_append.
    + (* the rest does not start with the inner prefix *)
      assert (R : match_ (outer ++ inner) (outer ++ rest) = None).
      { apply match_elsewhere. intros r H.
        rewrite append_associative in H. apply append_cancel in H.
        assert (Q' : String.prefix inner rest = true)
          by (apply starts_with_split; now exists r).
        congruence. }
      rewrite R, match_at_start. cbv zeta.
      destruct (String.eqb_spec rest "") as [->|Hr]; cbv iota.
      * destruct (trailingSlash outer);
          [apply (match_root_none inner F N)|].
        destruct (first_is slash "/");
          [apply (match_root_none inner F N) | reflexivity].
      * destruct (trailingSlash outer);
          [apply (match_no_prefix inner rest Q)|].
        destruct (first_is slash rest);
          [apply (match_no_prefix inner rest Q) | reflexivity].
  - rewrite (match_no_prefix outer path P). symmetry.
    apply match_elsewhere. intros r H. rewrite append_associative in H.
    assert (P' : String.prefix outer path = true)
      by (apply starts_with_split; now exists (inner ++ r)).
    congruence.
Qed.

Lemma match_composes_witness :
  match_nested "/foo" "/bar" "/foo/bar/baz" = match_ "/foo/bar" "/foo/bar/baz".
Proof.
  apply (match_composes "/foo" "/bar" "/foo/bar/baz"); [reflexivity | discriminate].
Defined.

(** ** mount *)


Lemma mount_general (compose : list jsval -> jsresult) (prefix : string)
  (app downstream : jsval) :
  first_is slash prefix = true ->
  prefix <> "/" ->
  normalize compose app = JsReturn downstream ->
  mount compose (JValue (VString prefix)) app =
    JsReturn (JFunction (mkFunction "" None (PlainCode (mounted prefix downstream)))).
Proof.
  intros F N Hn. unfold mount. simpl. rewrite F, Hn. simpl.
  now destruct (String.eqb_spec prefix "/").
Qed.

(** X6.  A request whose path does not match the prefix goes to the
    upstream continuation and nowhere else: the mounted function ends as
    the upstream continuation ends, on the context it leaves. *)
Theorem mount_transparent (compose : list jsval -> jsresult) (prefix : string)
  (app m downstream : jsval) (upstream : Context -> completion * Context)
  (ctx : Context) :
  mount compose (JValue (VString prefix)) app = JsReturn m ->
  prefix <> "/" ->
  normalize compose app = JsReturn downstream ->
  match_ prefix (path ctx) = None ->
  call m upstream ctx = upstream ctx.
Proof.
  intros Hm Hp Hn M. rewrite (mount_inv _ _ _ _ _ Hm Hp Hn).
  unfold call. simpl. now apply mounted_run_no_match.
Qed.

Lemma mount_transparent_witness :
  call (JFunction (mkFunction "" None (PlainCode (mounted "/prefix" (JFunction status204)))))
    upstream_log (context "/prefixlaksjdf")
  = upstream_log (context "/prefixlaksjdf").
Proof.
  apply (mount_transparent koa_compose "/prefix" (JFunction status204) _
           (JFunction status204));
    [reflexivity | discriminate | reflexivity | reflexivity].
Defined.



(** X8.  A prefix that does not begin with "/" (the empty string is one)
    makes [mount] fail with the assertion error, whatever the target is:
    the prefix is checked before the target is looked at. *)
Theorem mount_rejects_prefix (compose : list jsval -> jsresult)
  (prefix : string) (app : jsval) :
  (forall r, prefix <> String slash r) ->
  mount compose (JValue (VString prefix)) app =
    JsThrow (AssertionError prefix_message).
Proof.
  intros H. unfold mount. simpl.
  destruct (first_is slash prefix) eqn:F; [|reflexivity].
  apply first_is_split in F. destruct F as [r Hr]. now elim (H r).
Qed.

Lemma mount_rejects_prefix_witness :
  mount koa_compose (JValue (VString "")) (JValue VUndefined) =
    JsThrow (AssertionError prefix_message).
Proof.
  apply (mount_rejects_prefix koa_compose "" (JValue VUndefined)).
  intros r H. discriminate H.
Defined.

(** X9.  [mount] does not check that its target can be called.  Mounted
    on a value that is no function, the mounted function throws a
    TypeError on every matching request, after it has set [mountPath] and
    [path], which stay as set. *)
Theorem mounted_non_callable (compose : list jsval -> jsresult)
  (prefix : string) (app m downstream : jsval)
  (upstream : Context -> completion * Context) (ctx : Context)
  (newPath : string) :
  mount compose (JValue (VString prefix)) app = JsReturn m ->
  prefix <> "/" ->
  normalize compose app = JsReturn downstream ->
  match_ prefix (path ctx) = Some newPath ->
  is_callable downstream = false ->
  call m upstream ctx =
    (Thrown (TypeError "downstream is not a function"),
     set_path newPath (set_mountPath prefix ctx)).
Proof.
  intros Hm Hp Hn M C.
  rewrite (call_mounted _ _ _ _ _ _ _ _ Hm Hp Hn M).
  unfold target_run. destruct downstream; try discriminate; reflexivity.
Qed.

Lemma mounted_non_callable_witness :
  call (JFunction (mkFunction "" None (PlainCode (mounted "/foo" (JValue (VNumber 5))))))
    noop (context "/foo/bar")
  = (Thrown (TypeError "downstream is not a function"),
     mkContext "/bar" (Some "/foo") []).
Proof.
  apply (mounted_non_callable koa_compose "/foo" (JValue (VNumber 5)) _
           (JValue (VNumber 5)) noop (context "/foo/bar") "/bar");
    [reflexivity | discriminate | reflexivity | reflexivity | reflexivity].
Defined.

Lemma restoring_collapse (prev rest newPath : string)
  (upstream : Context -> completion * Context) (c : Context) :
  restoring_continuation rest newPath
    (restoring_continuation prev rest upstream) c =
  restoring_continuation prev newPath upstream c.
Proof.
  unfold restoring_continuation.
  change (set_path prev (set_path rest c)) with (set_path prev c).
  destruct (upstream (set_path prev c)) as [[v|[v|e]|e] c']; reflexivity.
Qed.

Lemma mounted_result_collapse (prev rest : string) (t : completion * Context) :
  mounted_result prev (mounted_result rest t) = mounted_result prev t.
Proof. destruct t as [[v|[v|e]|e] c]; reflexivity. Qed.

(** X10.  Mounts cascade.  With [mount(outer, mount(inner, app))] and a
    path that matches [outer ++ inner], the target runs on the path left
    after both prefixes, with [mountPath] the inner prefix; its
    continuation puts the path of the request back for the upstream
    continuation and the new path after it; when the target has
    succeeded the path of the request is back. *)
Theorem mount_cascades (compose : list jsval -> jsresult)
  (outer inner : string) (app downstream : jsval)
  (upstream : Context -> completion * Context) (ctx : Context)
  (newPath : string) :
  first_is slash outer = true -> outer <> "/" ->
  first_is slash inner = true -> inner <> "/" ->
  normalize compose app = JsReturn downstream ->
  match_ (outer ++ inner) (path ctx) = Some newPath ->
  exists m_inner m_outer,
    mount compose (JValue (VString inner)) app = JsReturn m_inner /\
    mount compose (JValue (VString outer)) m_inner = JsReturn m_outer /\
    call m_outer upstream ctx =
      mounted_result (path ctx)
        (run (call_value "downstream" downstream)
           (restoring_continuation (path ctx) newPath upstream)
           (set_path newPath (set_mountPath inner ctx))).
Proof.
  intros Fo No Fi Ni Hn M.
  eexists. eexists. split; [|split].
  - apply (mount_general compose inner app downstream Fi Ni Hn).
  - apply (mount_general compose outer); [assumption | assumption | reflexivity].
  - rewrite <- (match_composes outer inner (path ctx) Fi Ni) in M.
    unfold match_nested in M.
    destruct (match_ outer (path ctx)) as [rest|] eqn:Mo; [|discriminate].
    unfold call. cbn [call_value call_function code].
    rewrite (mounted_run _ _ _ _ _ Mo), target_run_eq.
    cbn [call_value call_function code].
    rewrite (mounted_run inner downstream _
               (set_path rest (set_mountPath outer ctx)) newPath M).
    rewrite target_run_eq, mounted_result_collapse.
    f_equal. apply run_ext. intros c. apply restoring_collapse.
Qed.

Lemma mount_cascades_witness :
  call_returned nested_mount upstream_log (context "/foo/bar/baz")
  = Some (ReturnedPromise (Fulfilled VUndefined),
          mkContext "/foo/bar/baz" (Some "/bar")
            [VNumber 1; VString "/foo/bar/baz"; VNumber 2]).
Proof.
  destruct (mount_cascades koa_compose "/foo" "/bar" (JFunction hello)
              (JFunction hello) upstream_log (context "/foo/bar/baz") "/baz"
              eq_refl ltac:(discriminate) eq_refl ltac:(discriminate)
              eq_refl eq_refl) as (m_inner & m_outer & Hi & Ho & Hc).
  unfold nested_mount. rewrite Hi, Ho. simpl. rewrite Hc. reflexivity.
Defined.

(** ** The adapters *)

Lemma convert_throws (co_yield : value -> outcome) (x : jsval) (e : value) :
  convert co_yield x = JsThrow e ->
  e = TypeError "middleware must be a function".
Proof.
  destruct x as [v|items|mws|fn].
  - destruct v; simpl; intros [= <-]; reflexivity.
  - simpl; intros [= <-]; reflexivity.
  - simpl; intros [= <-]; reflexivity.
  - rewrite convert_function. destruct (is_generator_function fn); discriminate.
Qed.

(** X11.  What [convert] returns is in the modern style, and [convert]
    returns it as it is: converting twice is converting once. *)
Theorem convert_idempotent (co_yield : value -> outcome) (x r : jsval) :
  convert co_yield x = JsReturn r ->
  is_modern r /\ convert co_yield r = JsReturn r.
Proof.
  destruct x as [v|items|mws|fn].
  - destruct v; simpl; discriminate.
  - simpl; discriminate.
  - simpl; discriminate.
  - rewrite convert_function.
    destruct (is_generator_function fn) eqn:G; intros [= <-].
    + split; [eexists; split; reflexivity | reflexivity].
    + split; [exists fn; now split|]. now rewrite convert_function, G.
Qed.

Lemma convert_idempotent_witness :
  convert co_yield_value
    (JFunction (mkFunction "converted" (Some (VString "")) (PlainCode (converted co_yield_value around13))))
  = JsReturn
      (JFunction (mkFunction "converted" (Some (VString "")) (PlainCode (converted co_yield_value around13)))).
Proof.
  apply (convert_idempotent co_yield_value (JFunction around13)). reflexivity.
Defined.

(** X12.  What [convert.back] returns is a generator function, and
    [convert.back] returns it as it is. *)
Theorem convert_back_idempotent (x r : jsval) :
  convert_back x = JsReturn r ->
  (exists fn, r = JFunction fn /\ is_generator_function fn = true) /\
  convert_back r = JsReturn r.
Proof.
  destruct x as [v|items|mws|fn].
  - destruct v; simpl; discriminate.
  - simpl; discriminate.
  - simpl; discriminate.
  - rewrite convert_back_function.
    destruct (is_generator_function fn) eqn:G; intros [= <-].
    + split; [exists fn; now split|]. now rewrite convert_back_function, G.
    + split; [eexists; split; reflexivity | reflexivity].
Qed.

Lemma convert_back_idempotent_witness :
  convert_back (JFunction around13) = JsReturn (JFunction around13).
Proof.
  apply (convert_back_idempotent (JFunction around13)). reflexivity.
Defined.

Lemma map_convert_rejects (co_yield : value -> outcome) (arr : list jsval) :
  Exists (fun mw => is_callable mw = false) arr ->
  map_convert co_yield arr = inl (TypeError "middleware must be a function").
Proof.
  induction 1 as [mw rest H|mw rest _ IH]; simpl.
  - assert (E : convert co_yield mw =
                  JsThrow (TypeError "middleware must be a function")).
    { unfold convert. now rewrite typeof_function, H. }
    now rewrite E.
  - destruct (convert co_yield mw) as [m|e] eqn:E.
    + now rewrite IH.
    + now rewrite (convert_throws _ _ _ E).
Qed.

(** X13.  [convert.compose] fails with the TypeError of [convert] as soon
    as one element is not a function, in both calling conventions; the
    composer is not called. *)
Theorem convert_compose_rejects (compose : list jsval -> jsresult)
  (co_yield : value -> outcome) (mws : list jsval) :
  Exists (fun mw => is_callable mw = false) mws ->
  convert_compose compose co_yield [JArray mws] =
    JsThrow (TypeError "middleware must be a function") /\
  (isArray (nth 0 mws (JValue VUndefined)) = false ->
   convert_compose compose co_yield mws =
     JsThrow (TypeError "middleware must be a function")).
Proof.
  intros H. unfold convert_compose. split.
  - simpl. now rewrite (map_convert_rejects co_yield mws H).
  - intros A. rewrite A. simpl. now rewrite (map_convert_rejects co_yield mws H).
Qed.

Lemma convert_compose_rejects_witness :
  convert_compose koa_compose co_yield_value
    [JFunction hello; JValue (VNumber 5)] =
  JsThrow (TypeError "middleware must be a function").
Proof.
  refine (proj2 (convert_compose_rejects koa_compose co_yield_value
                   [JFunction hello; JValue (VNumber 5)] _) eq_refl).
  apply Exists_cons_tl, Exists_cons_hd. reflexivity.
Defined.

(** ** The wrappers at work *)

Lemma calls_ext {N R : Type} (p : prog N R) (next next' : Context -> N * Context) :
  (forall c, next c = next' c) ->
  forall ctx, calls p next ctx = calls p next' ctx.
Proof.
  intros E. induction p as [r|k IH|u k IH|k IH]; intros ctx; simpl.
  - reflexivity.
  - apply IH.
  - apply IH.
  - rewrite <- E. destruct (next ctx) as [n ctx']. now rewrite IH.
Qed.

Section Once.

(** A closure that runs [first] at its first call and answers [later]
    from then on: the shape of both continuations the adapters make. *)
Context {N M : Type}.
Variable k : closure bool N M.
Variable first : prog N M.
Variable later : M.
Hypothesis k_once : forall b, k b = if b then (Ret later, b) else (first, true).
Variable next : Context -> N * Context.

(** A body that calls its continuation at most once runs as if it were
    handed [first] itself. *)
Lemma run_invoke_once {R : Type} (f : prog M R) (b : bool) (ctx : Context) :
  calls f (run first next) ctx <= (if b then 0 else 1) ->
  run (invoke f k b) next ctx = run f (run first next) ctx.
Proof.
  revert b ctx; induction f as [r|g IH|u g IH|g IH]; intros b ctx; simpl.
  - reflexivity.
  - apply IH.
  - apply IH.
  - rewrite k_once. intros H.
    destruct (run first next ctx) as [m ctx'] eqn:E.
    destruct b; [lia|].
    rewrite run_bind, E. apply IH. simpl. lia.
Qed.

Lemma calls_invoke_later {R : Type} (f : prog M R) (ctx : Context) :
  calls (invoke f k true) next ctx = 0.
Proof.
  revert ctx; induction f as [r|g IH|u g IH|g IH]; intros ctx; simpl.
  - reflexivity.
  - apply IH.
  - apply IH.
  - rewrite k_once. simpl. apply IH.
Qed.

(** The continuation under [first] is called at most as often as [first]
    calls it in one run. *)
Lemma calls_invoke_once {R : Type} (f : prog M R) (ctx : Context) :
  (forall c, calls first next c <= 1) ->
  calls (invoke f k false) next ctx <= 1.
Proof.
  intros H.
  revert ctx; induction f as [r|g IH|u g IH|g IH]; intros ctx; simpl.
  - lia.
  - apply IH.
  - apply IH.
  - rewrite k_once, calls_bind. specialize (H ctx).
    destruct (run first next ctx) as [m ctx'].
    rewrite calls_invoke_later. lia.
Qed.



End Once.

Lemma guarded_next_once (b : bool) :
  guarded_next b =
    if b
    then (Ret (ReturnedPromise (Rejected (Error "next() called multiple times"))), b)
    else (Next (fun o => Ret (ReturnedPromise o)), true).
Proof. reflexivity. Qed.

Lemma yield_next_once (co_yield : value -> outcome) (b : bool) :
  yield_next co_yield b =
    if b then (Ret (Fulfilled VUndefined), b) else (createGenerator co_yield, true).
Proof. reflexivity. Qed.

Lemma run_createGenerator (co_yield : value -> outcome)
  (next : Context -> completion * Context) (ctx : Context) :
  run (createGenerator co_yield) next ctx = awaited co_yield next ctx.
Proof.
  unfold createGenerator, awaited. simpl.
  now destruct (next ctx) as [[v|o|e] ctx'].
Qed.

Lemma run_co_call (downstream : Context -> outcome * Context) (ctx : Context) :
  run (Next (fun o => Ret (ReturnedPromise o))) downstream ctx =
    promised downstream ctx.
Proof. unfold promised. simpl. now destruct (downstream ctx). Qed.

(** The body of a converted generator function, when it yields [next] at
    most once. *)
Lemma converted_run (co_yield : value -> outcome) (fn : JsFunction)
  (next : Context -> completion * Context) (ctx : Context) :
  calls (generator_body fn) (awaited co_yield next) ctx <= 1 ->
  run (converted co_yield fn) next ctx =
    let (o, ctx') := run (generator_body fn) (awaited co_yield next) ctx in
    (ReturnedPromise o, ctx').
Proof.
  intros H. unfold converted. rewrite run_bind.
  rewrite (run_invoke_once _ _ _ (yield_next_once co_yield)).
  - rewrite (run_ext _ _ _ (run_createGenerator co_yield next)).
    now destruct (run (generator_body fn) (awaited co_yield next) ctx).
  - now rewrite (calls_ext _ _ _ (run_createGenerator co_yield next)).
Qed.

(** The body of the generator function [convert.back] makes, when the
    wrapped function calls its continuation at most once. *)
Lemma back_run (fn : JsFunction) (downstream : Context -> outcome * Context)
  (ctx : Context) :
  calls (call_function fn) (promised downstream) ctx <= 1 ->
  run (back_body fn) downstream ctx =
    let (r, ctx') := run (call_function fn) (promised downstream) ctx in
    (yield_resolved r, ctx').
Proof.
  intros H. unfold back_body. rewrite run_bind.
  rewrite (run_invoke_once _ _ _ guarded_next_once).
  - rewrite (run_ext _ _ _ (run_co_call downstream)).
    now destruct (run (call_function fn) (promised downstream) ctx).
  - now rewrite (calls_ext _ _ _ (run_co_call downstream)).
Qed.

Lemma calls_converted (co_yield : value -> outcome) (fn : JsFunction)
  (next : Context -> completion * Context) (ctx : Context) :
  calls (converted co_yield fn) next ctx <= 1.
Proof.
  unfold converted. rewrite calls_bind.
  pose proof (calls_invoke_once _ _ _ (yield_next_once co_yield) next
                (generator_body fn) ctx) as H.
  destruct (run (invoke (generator_body fn) (yield_next co_yield) false) next ctx).
  simpl. rewrite Nat.add_0_r. apply H.
  intros c0. simpl. destruct (next c0) as [[v0|o0|e0] c1]; simpl; lia.
Qed.



(** X15.  A converted generator function that yields [next] at most once
    runs as the generator function itself, its [yield next] answered by
    the awaited promise of the continuation, and returns the promise of
    what the generator returns or throws. *)
Theorem convert_runs_generator (co_yield : value -> outcome) (fn : JsFunction)
  (next : Context -> completion * Context) (ctx : Context) :
  is_generator_function fn = true ->
  calls (generator_body fn) (awaited co_yield next) ctx <= 1 ->
  exists w,
    convert co_yield (JFunction fn) = JsReturn (JFunction w) /\
    run (call_function w) next ctx =
      let (o, ctx') := run (generator_body fn) (awaited co_yield next) ctx in
      (ReturnedPromise o, ctx').
Proof.
  intros G H. rewrite convert_function, G. eexists. split; [reflexivity|].
  cbn [call_function code]. now apply converted_run.
Qed.

Lemma convert_runs_generator_witness :
  exists w,
    convert co_yield_value (JFunction around13) = JsReturn (JFunction w) /\
    run (call_function w) next2 (context "/") =
      (ReturnedPromise (Fulfilled VUndefined),
       mkContext "/" None [VNumber 1; VNumber 2; VNumber 3]).
Proof.
  apply (convert_runs_generator co_yield_value around13 next2 (context "/")).
  - reflexivity.
  - simpl. lia.
Defined.

(** X16.  The generator function [convert.back] makes of a function that
    calls its continuation at most once runs as that function, handed the
    promise of the downstream generator; it throws what the function
    throws or rejects with, and returns [undefined] otherwise. *)
Theorem back_runs_function (fn : JsFunction)
  (downstream : Context -> outcome * Context) (ctx : Context) :
  is_generator_function fn = false ->
  calls (call_function fn) (promised downstream) ctx <= 1 ->
  exists w,
    convert_back (JFunction fn) = JsReturn (JFunction w) /\
    run (generator_body w) downstream ctx =
      let (r, ctx') := run (call_function fn) (promised downstream) ctx in
      (yield_resolved r, ctx').
Proof.
  intros G H. rewrite convert_back_function, G. eexists. split; [reflexivity|].
  cbn [generator_body code]. now apply back_run.
Qed.

Lemma back_runs_function_witness :
  exists w,
    convert_back (JFunction hello) = JsReturn (JFunction w) /\
    run (generator_body w) downstream3 (context "/") =
      (Fulfilled VUndefined,
       mkContext "/" None [VNumber 1; VNumber 3; VNumber 2]).
Proof.
  apply (back_runs_function hello downstream3 (context "/")).
  - reflexivity.
  - simpl. lia.
Defined.

(** X17.  There and back, from the modern style: [convert(convert.back(fn))]
    runs as [fn], for an [fn] that calls its continuation at most once and
    a continuation that returns promises; what is left of the result of
    [fn] is whether it succeeded: the promise is fulfilled with
    [undefined], or rejected with what [fn] threw or rejected with. *)
Theorem convert_of_back (co_yield : value -> outcome) (fn : JsFunction)
  (next : Context -> completion * Context) (ctx : Context) :
  is_generator_function fn = false ->
  (forall c, exists o, fst (next c) = ReturnedPromise o) ->
  calls (call_function fn) next ctx <= 1 ->
  exists w w',
    convert_back (JFunction fn) = JsReturn (JFunction w) /\
    convert co_yield (JFunction w) = JsReturn (JFunction w') /\
    run (call_function w') next ctx =
      let (r, ctx') := run (call_function fn) next ctx in
      (ReturnedPromise (yield_resolved r), ctx').
Proof.
  intros G P H.
  assert (E : forall c, promised (awaited co_yield next) c = next c).
  { intros c. unfold promised, awaited. destruct (P c) as [o Ho].
    destruct (next c) as [r c']. simpl in Ho. now subst r. }
  rewrite convert_back_function, G. eexists. eexists.
  split; [reflexivity|]. rewrite convert_function. split; [reflexivity|].
  cbn [call_function code is_generator_function].
  rewrite converted_run by apply calls_back_body.
  cbn [generator_body code].
  rewrite back_run by now rewrite (calls_ext _ _ _ E).
  rewrite (run_ext _ _ _ E).
  now destruct (run (call_function fn) next ctx).
Qed.

Lemma convert_of_back_witness :
  exists w w',
    convert_back (JFunction hello) = JsReturn (JFunction w) /\
    convert co_yield_value (JFunction w) = JsReturn (JFunction w') /\
    run (call_function w') next2 (context "/") =
      (ReturnedPromise (Fulfilled VUndefined),
       mkContext "/" None [VNumber 1; VNumber 2; VNumber 2]).
Proof.
  apply (convert_of_back co_yield_value hello next2 (context "/")).
  - reflexivity.
  - intros c. now exists (Fulfilled VUndefined).
  - simpl. lia.
Defined.

(** X18.  There and back, from the legacy style: [convert.back(convert(fn))]
    runs as the generator function [fn], for an [fn] that yields [next] at
    most once; the value [fn] returns is dropped. *)
Theorem back_of_convert (co_yield : value -> outcome) (fn : JsFunction)
  (downstream : Context -> outcome * Context) (ctx : Context) :
  is_generator_function fn = true ->
  calls (generator_body fn) downstream ctx <= 1 ->
  exists w w',
    convert co_yield (JFunction fn) = JsReturn (JFunction w) /\
    convert_back (JFunction w) = JsReturn (JFunction w') /\
    run (generator_body w') downstream ctx =
      let (o, ctx') := run (generator_body fn) downstream ctx in
      (discard_value o, ctx').
Proof.
  intros G H.
  assert (E : forall c, awaited co_yield (promised downstream) c = downstream c).
  { intros c. unfold promised, awaited. now destruct (downstream c). }
  rewrite convert_function, G. eexists. eexists.
  split; [reflexivity|]. rewrite convert_back_function. split; [reflexivity|].
  cbn [generator_body code is_generator_function].
  rewrite back_run by (cbn [call_function code]; apply calls_converted).
  cbn [call_function code].
  rewrite converted_run by now rewrite (calls_ext _ _ _ E).
  rewrite (run_ext _ _ _ E).
  destruct (run (generator_body fn) downstream ctx) as [[v|e] ctx']; reflexivity.
Qed.

Lemma back_of_convert_witness :
  exists w w',
    convert co_yield_value (JFunction around13) = JsReturn (JFunction w) /\
    convert_back (JFunction w) = JsReturn (JFunction w') /\
    run (generator_body w') downstream3 (context "/") =
      (Fulfilled VUndefined,
       mkContext "/" None [VNumber 1; VNumber 3; VNumber 3]).
Proof.
  apply (back_of_convert co_yield_value around13 downstream3 (context "/")).
  - reflexivity.
  - simpl. lia.
Defined.

(** ** mount and the upstream continuation *)

Lemma calls_invoke_stateless {N M R : Type} (f : prog M R) (k : prog N M)
  (next : Context -> N * Context) :
  (forall c, calls k next c = 1) ->
  forall ctx,
    calls (invoke f (stateless k) tt) next ctx = calls f (run k next) ctx.
Proof.
  intros K. induction f as [r|g IH|u g IH|g IH]; intros ctx; simpl.
  - reflexivity.
  - apply IH.
  - apply IH.
  - rewrite calls_bind, K. destruct (run k next ctx) as [m ctx'].
    now rewrite IH.
Qed.

Lemma calls_mount_next (prev newPath : string)
  (upstream : Context -> completion * Context) (c : Context) :
  calls (mount_next prev newPath) upstream c = 1.
Proof.
  unfold mount_next. simpl.
  destruct (upstream (set_path prev c)) as [[v|[v|e]|e] c']; reflexivity.
Qed.

(** X19.  On a matching request the mounted function calls the upstream
    continuation exactly as often as its target calls the continuation it
    is handed, and never by itself; on a request that does not match it
    calls the upstream continuation once. *)
Theorem mounted_calls_upstream (compose : list jsval -> jsresult)
  (prefix : string) (app m downstream : jsval)
  (upstream : Context -> completion * Context) (ctx : Context) :
  mount compose (JValue (VString prefix)) app = JsReturn m ->
  prefix <> "/" ->
  normalize compose app = JsReturn downstream ->
  calls (call_value "fn" m) upstream ctx =
    match match_ prefix (path ctx) with
    | Some newPath =>
        calls (call_value "downstream" downstream)
          (restoring_continuation (path ctx) newPath upstream)
          (set_path newPath (set_mountPath prefix ctx))
    | None => 1
    end.
Proof.
  intros Hm Hp Hn. rewrite (mount_inv _ _ _ _ _ Hm Hp Hn).
  cbn [call_value call_function code]. unfold mounted. cbn [calls].
  destruct (match_ prefix (path ctx)) as [newPath|] eqn:M.
  - rewrite (match_not_empty _ _ _ M). cbn [calls].
    rewrite calls_bind, calls_invoke_stateless by apply calls_mount_next.
    rewrite (calls_ext _ _ _ (run_mount_next (path ctx) newPath upstream)).
    match goal with
    | |- _ + (let (a, ctx') := ?t in _) = _ => destruct t as [[v|[v|e]|e] c']
    end; simpl; lia.
  - simpl. now destruct (upstream ctx).
Qed.

Lemma mounted_calls_upstream_witness :
  calls (call_value "fn"
           (JFunction (mkFunction "" None (PlainCode (mounted "/prefix" (JFunction status204))))))
    upstream_log (context "/prefix/lkjasdf")
  = 0.
Proof.
  etransitivity.
  - apply (mounted_calls_upstream koa_compose "/prefix" (JFunction status204) _
             (JFunction status204) upstream_log (context "/prefix/lkjasdf"));
      [reflexivity | discriminate | reflexivity].
  - reflexivity.
Defined.
